(** * Revocation registry: tails file retrieval

    A shallow embedding of
    [aries_cloudagent/revocation/models/revocation_registry.py].

    The class [RevocationRegistry] holds the metadata of one revocation
    registry and knows how to find, download and check the tails file the
    registry refers to.  The embedding keeps the shape of the Python code:
    the registry object is a record that the methods update, the file
    system and the network are an explicit world, exceptions are values of
    an error type, and the methods run in a small state-and-exception
    monad.

    What the model covers and what it leaves out:
    - the attributes have the types [__init__] annotates them with, and
      [None] as the default; [tails_local_path] can also hold the [Path]
      that [retrieve_tails] stores in it;
    - paths are [pathlib]'s pure POSIX paths; the file system maps such
      paths to files and directories, without symbolic links, [..]
      resolution or permissions;
    - [hashlib.sha256], [base58.b58encode] and the regular expression of
      [from_definition] are written out and run on concrete inputs;
    - an [await] is an ordinary step: one method runs at a time. *)

From Stdlib Require Import ZArith List Ascii String Bool Lia.
From Stdlib.Strings Require Import Byte.
From stdpp Require Import base option gmap strings list fin_maps.

Import ListNotations.
Local Open Scope Z_scope.

(* ===================================================================== *)
(** * Bytes *)
(* ===================================================================== *)

(** A Python [bytes] object is a list of bytes. *)
Abbreviation bytes := (list Byte.byte).

Definition bytes_of_string (s : string) : bytes := list_byte_of_string s.

Definition Z_of_byte (b : Byte.byte) : Z := Z.of_N (Byte.to_N b).

Definition byte_of_Z (z : Z) : Byte.byte :=
  match Byte.of_N (Z.to_N (z mod 256)) with
  | Some b => b
  | None => Byte.x00
  end.

(* ===================================================================== *)
(** * hashlib.sha256 and base58.b58encode *)
(* ===================================================================== *)

(** The two library functions the download check is built from.  They are
    written out (FIPS 180-4 for the digest, the [base58] package for the
    encoding) so that the model runs on concrete tails files; the proofs
    below never look inside them. *)
Module Hash.

Definition w32 (x : Z) : Z := x mod 2 ^ 32.

Definition rotr (n x : Z) : Z :=
  Z.lor (Z.shiftr x n) (w32 (Z.shiftl x (32 - n))).

Definition xor3 (a b c : Z) : Z := Z.lxor (Z.lxor a b) c.

Definition Ch (x y z : Z) : Z :=
  Z.lxor (Z.land x y) (Z.land (Z.lxor x 0xffffffff) z).

Definition Maj (x y z : Z) : Z :=
  xor3 (Z.land x y) (Z.land x z) (Z.land y z).

Definition Sigma0 (x : Z) : Z := xor3 (rotr 2 x) (rotr 13 x) (rotr 22 x).
Definition Sigma1 (x : Z) : Z := xor3 (rotr 6 x) (rotr 11 x) (rotr 25 x).
Definition sigma0 (x : Z) : Z := xor3 (rotr 7 x) (rotr 18 x) (Z.shiftr x 3).
Definition sigma1 (x : Z) : Z := xor3 (rotr 17 x) (rotr 19 x) (Z.shiftr x 10).

(** The constants are taken from the first primes, as the standard
    defines them: the first 32 bits of the fractional part of the cube
    root (for [K]) and of the square root (for [H0]). *)
Definition is_prime (p : Z) : bool :=
  forallb (fun d => negb (p mod Z.of_nat d =? 0)) (seq 2 (Z.to_nat p - 2)).

Definition primes (n : nat) : list Z :=
  firstn n (List.filter is_prime (map Z.of_nat (seq 2 310))).

(** The largest [x] below [2 ^ bits] with [x ^ 3 <= n]. *)
Fixpoint cube_root (bits : nat) (n x : Z) : Z :=
  match bits with
  | O => x
  | S b =>
      let y := x + 2 ^ Z.of_nat b in
      cube_root b n (if y * y * y <=? n then y else x)
  end.

Definition K : list Z :=
  map (fun p => w32 (cube_root 36 (p * 2 ^ 96) 0)) (primes 64).

Definition H0 : list Z :=
  map (fun p => w32 (Z.sqrt (p * 2 ^ 64))) (primes 8).

(** Big-endian encoding of [x] on [n] bytes, and its inverse. *)
Fixpoint be_bytes (n : nat) (x : Z) : list Z :=
  match n with
  | O => []
  | S n' => be_bytes n' (x / 256) ++ [x mod 256]
  end.

Definition be_int (l : list Z) : Z :=
  fold_left (fun acc b => acc * 256 + b) l 0.

(** Padding: a one bit, zeros up to 56 modulo 64, the bit length on 8
    bytes. *)
Definition pad (m : list Z) : list Z :=
  let len := Z.of_nat (length m) in
  let zeros := Z.to_nat ((55 - len) mod 64) in
  m ++ [0x80] ++ repeat 0 zeros ++ be_bytes 8 (8 * len).

(** [chunks_of fuel n l]: [l] cut in pieces of [n] elements. *)
Fixpoint chunks_of (fuel : nat) (n : nat) (l : list Z) : list (list Z) :=
  match fuel, l with
  | O, _ => []
  | _, [] => []
  | S fuel', _ => firstn n l :: chunks_of fuel' n (skipn n l)
  end.

Definition words_of_block (block : list Z) : list Z :=
  map be_int (chunks_of 16 4 block).

(** The message schedule, most recent word first while it grows. *)
Fixpoint extend (n : nat) (rw : list Z) : list Z :=
  match n with
  | O => rw
  | S n' =>
      let w := w32 (sigma1 (nth 1 rw 0) + nth 6 rw 0
                    + sigma0 (nth 14 rw 0) + nth 15 rw 0) in
      extend n' (w :: rw)
  end.

Definition schedule (block : list Z) : list Z :=
  rev (extend 48 (rev (words_of_block block))).

Definition round (s : list Z) (kw : Z * Z) : list Z :=
  match s with
  | [a; b; c; d; e; f; g; h] =>
      let t1 := w32 (h + Sigma1 e + Ch e f g + fst kw + snd kw) in
      let t2 := w32 (Sigma0 a + Maj a b c) in
      [w32 (t1 + t2); a; b; c; w32 (d + t1); e; f; g]
  | _ => s
  end.

Definition compress (h : list Z) (block : list Z) : list Z :=
  let s := fold_left round (combine K (schedule block)) h in
  map (fun p => w32 (fst p + snd p)) (combine h s).

Definition sha256 (m : bytes) : bytes :=
  let p := pad (map Z_of_byte m) in
  let blocks := chunks_of (length p) 64 p in
  map byte_of_Z (concat (map (be_bytes 4) (fold_left compress blocks H0))).

(** [base58.b58encode]: the leading zero bytes become the first letter
    of the alphabet, the rest is the number written in base 58. *)
Definition alphabet : string :=
  "123456789ABCDEFGHJKLMNPQRSTUVWXYZabcdefghijkmnopqrstuvwxyz".

Definition digit58 (i : Z) : ascii :=
  match String.get (Z.to_nat i) alphabet with
  | Some c => c
  | None => "1"%char
  end.

(** [while i: i, idx = divmod(i, 58); string = alphabet[idx] + string] *)
Fixpoint b58encode_int (fuel : nat) (i : Z) (acc : string) : string :=
  match fuel with
  | O => acc
  | S fuel' =>
      if i =? 0 then acc
      else b58encode_int fuel' (i / 58) (String (digit58 (i mod 58)) acc)
  end.

Fixpoint lstrip0 (v : list Z) : list Z :=
  match v with
  | 0 :: v' => lstrip0 v'
  | _ => v
  end.

Definition b58encode (v : bytes) : string :=
  let v := map Z_of_byte v in
  let stripped := lstrip0 v in
  let zeros := (length v - length stripped)%nat in
  let digits := b58encode_int (2 * length stripped) (be_int stripped) "" in
  String.concat "" (repeat "1"%string zeros) +:+ digits.

(** What [hashlib.sha256()] keeps between [update] calls: seen from
    outside, the bytes it was fed so far.  [digest] hashes them. *)
Definition hasher := bytes.
Definition new : hasher := [].
Definition update (h : hasher) (buf : bytes) : hasher := h ++ buf.
Definition digest (h : hasher) : bytes := sha256 h.

End Hash.

(* ===================================================================== *)
(** * pathlib: pure POSIX paths *)
(* ===================================================================== *)

(** [pathlib.PurePosixPath] as far as the registry uses it: a path is a
    root (empty, one slash or two) and the list of its components.
    Parsing drops empty components and single dots and keeps [..]. *)
Module PurePath.

Record t := mk { root : string; parts : list string }.

(** [str.split(sep)] *)
Fixpoint split_go (sep : ascii) (s : string) (cur : string) : list string :=
  match s with
  | EmptyString => [cur]
  | String c s' =>
      if Ascii.eqb c sep then cur :: split_go sep s' EmptyString
      else split_go sep s' (cur +:+ String c EmptyString)
  end.

Definition split (sep : ascii) (s : string) : list string :=
  split_go sep s EmptyString.

(** [str.lstrip("/")] *)
Fixpoint lstrip_sep (s : string) : string :=
  match s with
  | String "/" s' => lstrip_sep s'
  | _ => s
  end.

(** [_PosixFlavour.splitroot]: exactly two leading slashes are kept as
    a root of their own, any other number is one slash. *)
Definition splitroot (part : string) : string * string :=
  match part with
  | String "/" _ =>
      let stripped := lstrip_sep part in
      if Nat.eqb (String.length part - String.length stripped) 2
      then ("//", stripped)
      else ("/", stripped)
  | _ => ("", part)
  end%string.

Definition keep_component (x : string) : bool :=
  negb (String.eqb x "") && negb (String.eqb x ".").

(** [PurePosixPath(s)] for one string. *)
Definition parse (s : string) : t :=
  let (r, rel) := splitroot s in
  mk r (List.filter keep_component (split "/" rel)).

(** [join_parsed_parts]: a rooted right-hand side replaces the left
    one, otherwise its components are appended. *)
Definition join (p q : t) : t :=
  if String.eqb (root q) "" then mk (root p) (parts p ++ parts q) else q.

(** [p.joinpath(s)], also written [p / s]. *)
Definition joinpath (p : t) (s : string) : t := join p (parse s).

(** [PurePosixPath(s0, s1, ...)] *)
Definition of_segments (segments : list string) : t :=
  fold_left joinpath segments (mk "" []).

(** [str(p)] *)
Definition str (p : t) : string :=
  match root p, parts p with
  | EmptyString, [] => "."
  | r, ps => r +:+ String.concat "/" ps
  end%string.

(** [p.parent]: the path without its last component; a path with no
    component is its own parent. *)
Definition parent (p : t) : t := mk (root p) (removelast (parts p)).

(** [p] and the paths above it that have a component, from the top:
    for [/a/b/c] these are [/a], [/a/b] and [/a/b/c]. *)
Definition lineage (p : t) : list t :=
  map (fun n => mk (root p) (firstn n (parts p))) (seq 1 (length (parts p))).

#[global] Instance t_eq_dec : EqDecision t.
Proof. solve_decision. Defined.

#[global] Instance t_countable : Countable t.
Proof.
  apply (inj_countable' (fun p => (root p, parts p))
                        (fun rp => mk (fst rp) (snd rp))).
  intros [r ps]. reflexivity.
Defined.

End PurePath.

(** A value that stands for a path in Python: a [str] or a [Path]. *)
Inductive pathlike :=
| Str (s : string)
| PosixPath (p : PurePath.t).

(** [Path(x)] *)
Definition Path (x : pathlike) : PurePath.t :=
  match x with
  | Str s => PurePath.parse s
  | PosixPath p => p
  end.

(* ===================================================================== *)
(** * re: the one pattern the registry matches *)
(* ===================================================================== *)

(** A backtracking matcher in the manner of Python's [re], for patterns
    that are a sequence of: the start anchor, a literal character, a
    starred character class (greedy [c*] or lazy [c*?]), and the
    parentheses of group 1.  Alternatives are tried in Python's order,
    so the first match found is the one [re.match] reports. *)
Module Re.

Inductive cclass :=
| Dot                    (* [.]: any character but a newline *)
| NotChar (c : ascii).   (* [[^c]] *)

Definition newline : ascii := ascii_of_nat 10.

Definition accepts (cl : cclass) (a : ascii) : bool :=
  match cl with
  | Dot => negb (Ascii.eqb a newline)
  | NotChar c => negb (Ascii.eqb a c)
  end.

Inductive item :=
| Bol                        (* [^] *)
| Chr (c : ascii)            (* a literal character *)
| StarLazy (cl : cclass)     (* [cl*?] *)
| StarGreedy (cl : cclass)   (* [cl*] *)
| GroupOpen                  (* [(] *)
| GroupClose.                (* [)] *)

(** Group 1 while matching: not reached, being read, or read. *)
Inductive group :=
| NotYet
| Reading (acc : string)
| Closed (txt : string).

Definition feed (a : ascii) (g : group) : group :=
  match g with
  | Reading acc => Reading (acc +:+ String a EmptyString)
  | _ => g
  end.

(** What is left to match after a star, as a function of the offset,
    the rest of the subject and the state of group 1. *)
Definition cont := nat -> string -> group -> option group.

(** [cl*]: take as many characters as the class accepts, and give them
    back one at a time while the rest of the pattern fails. *)
Fixpoint star_greedy (cl : cclass) (k : cont) (pos : nat) (s : string)
  (g : group) {struct s} : option group :=
  match s with
  | String a s' =>
      if accepts cl a then
        match star_greedy cl k (S pos) s' (feed a g) with
        | Some r => Some r
        | None => k pos s g
        end
      else k pos s g
  | EmptyString => k pos s g
  end.

(** [cl*?]: try the rest of the pattern first, and take one more
    character only when it fails. *)
Fixpoint star_lazy (cl : cclass) (k : cont) (pos : nat) (s : string)
  (g : group) {struct s} : option group :=
  match k pos s g with
  | Some r => Some r
  | None =>
      match s with
      | String a s' =>
          if accepts cl a then star_lazy cl k (S pos) s' (feed a g) else None
      | EmptyString => None
      end
  end.

(** [run p pos s g]: match the items [p] against [s], the rest of the
    subject from offset [pos] on; the state of group 1 on success. *)
Fixpoint run (p : list item) (pos : nat) (s : string) (g : group)
  {struct p} : option group :=
  match p with
  | [] => Some g
  | Bol :: p' => if Nat.eqb pos 0 then run p' pos s g else None
  | Chr c :: p' =>
      match s with
      | String a s' =>
          if Ascii.eqb a c then run p' (S pos) s' (feed a g) else None
      | EmptyString => None
      end
  | GroupOpen :: p' => run p' pos s (Reading EmptyString)
  | GroupClose :: p' =>
      run p' pos s (match g with Reading acc => Closed acc | _ => g end)
  | StarGreedy cl :: p' => star_greedy cl (run p') pos s g
  | StarLazy cl :: p' => star_lazy cl (run p') pos s g
  end.

(** [re.match(p, s)] and [m.group(1)] *)
Definition match_ (p : list item) (s : string) : option group :=
  run p 0 s NotYet.

Definition group1 (m : group) : option string :=
  match m with
  | Closed txt => Some txt
  | _ => None
  end.

(** [c not in s] *)
Fixpoint lacks (c : ascii) (s : string) : bool :=
  match s with
  | EmptyString => true
  | String a s' => negb (Ascii.eqb a c) && lacks c s'
  end.

End Re.

(* ===================================================================== *)
(** * Exceptions and the method monad *)
(* ===================================================================== *)

Inductive os_error :=
| FileExistsError
| FileNotFoundError
| NotADirectoryError
| IsADirectoryError.

Inductive exn :=
| RevocationError (msg : string)
| FetchError
| KeyError (key : string)
| TypeError
| OSError (e : os_error).

Inductive result (A : Type) :=
| Ok (a : A)
| Raise (e : exn).

Arguments Ok {A} a.
Arguments Raise {A} e.

#[global] Instance result_ret : MRet result := fun A (a : A) => Ok a.

#[global] Instance result_bind : MBind result :=
  fun A B (k : A -> result B) (r : result A) =>
    match r with
    | Ok a => k a
    | Raise e => Raise e
    end.

(** The error kinds of the design document are the three messages that
    [retrieve_tails] raises a [RevocationError] with, and the [KeyError]
    of a definition that lacks a field. *)
Definition MissingPublicLocation : exn :=
  RevocationError "Tails file public URI is empty".
Definition FetchFailure : exn :=
  RevocationError "Error retrieving tails file".
Definition HashMismatch : exn :=
  RevocationError "The hash of the downloaded tails file does not match.".
Definition MalformedDefinition (key : string) : exn := KeyError key.

(** A computation over a state [S] that returns an [A] or raises. *)
Definition M (S A : Type) : Type := S -> result A * S.

#[global] Instance M_ret {S} : MRet (M S) :=
  fun A (a : A) s => (Ok a, s).

#[global] Instance M_bind {S} : MBind (M S) :=
  fun A B (k : A -> M S B) (m : M S A) s =>
    match m s with
    | (Ok a, s') => k a s'
    | (Raise e, s') => (Raise e, s')
    end.

Definition raise {S A} (e : exn) : M S A := fun s => (Raise e, s).

(** [try: m  except: h] *)
Definition try_except {S A} (m : M S A) (h : exn -> M S A) : M S A :=
  fun s =>
    match m s with
    | (Ok a, s') => (Ok a, s')
    | (Raise e, s') => h e s'
    end.

(** A step that does not touch the state. *)
Definition lift {S A} (r : result A) : M S A := fun s => (r, s).

(* ===================================================================== *)
(** * The world: file system and network *)
(* ===================================================================== *)

(** What a path leads to. *)
Inductive node :=
| File (data : bytes)
| Dir.

(** The body of a response, as the chunks that successive [read] calls
    hand out; after the last one [read] returns the empty chunk. *)
Abbreviation stream := (list bytes).

(** [fs] maps the paths that exist to what they hold, [remote] maps the
    URIs the transport can open to their content, and [fetched] records
    every URI the transport was asked for, latest last. *)
Record World := mkWorld {
  fs : gmap PurePath.t node;
  remote : gmap string stream;
  fetched : list string
}.

Module Fs.

(** [os.stat]: the root and the current directory need no entry. *)
Definition stat (m : gmap PurePath.t node) (p : PurePath.t) : option node :=
  match PurePath.parts p with
  | [] => Some Dir
  | _ => m !! p
  end.

(** [Path.exists] and [Path.is_file] *)
Definition exists_ (m : gmap PurePath.t node) (p : PurePath.t) : bool :=
  match stat m p with
  | Some _ => true
  | None => false
  end.

Definition is_file (m : gmap PurePath.t node) (p : PurePath.t) : bool :=
  match stat m p with
  | Some (File _) => true
  | _ => false
  end.

Definition is_dir (m : gmap PurePath.t node) (p : PurePath.t) : bool :=
  match stat m p with
  | Some Dir => true
  | _ => false
  end.

(** The directories [ps] in turn: an existing directory is kept, a
    missing one is made, a file in the way stops the walk. *)
Fixpoint makedirs (ps : list PurePath.t) (m : gmap PurePath.t node)
  : result (gmap PurePath.t node) :=
  match ps with
  | [] => Ok m
  | p :: ps' =>
      match m !! p with
      | Some Dir => makedirs ps' m
      | Some (File _) => Raise (OSError NotADirectoryError)
      | None => makedirs ps' (<[p := Dir]> m)
      end
  end.

(** [p.mkdir(parents=True)]: [p] must not exist; it and its missing
    ancestors are made, from the top. *)
Definition mkdir_parents (p : PurePath.t) (m : gmap PurePath.t node)
  : result (gmap PurePath.t node) :=
  match stat m p with
  | Some _ => Raise (OSError FileExistsError)
  | None => makedirs (PurePath.lineage p) m
  end.

(** [open(p, "wb")]: the file is created, or emptied when it is there
    already; a directory cannot be opened, and the parent must be a
    directory. *)
Definition open_wb (p : PurePath.t) (m : gmap PurePath.t node)
  : result (gmap PurePath.t node) :=
  match stat m p with
  | Some Dir => Raise (OSError IsADirectoryError)
  | _ =>
      match stat m (PurePath.parent p) with
      | Some Dir => Ok (<[p := File []]> m)
      | Some (File _) => Raise (OSError NotADirectoryError)
      | None => Raise (OSError FileNotFoundError)
      end
  end.

(** [f.write(buf)] on the file opened at [p]: the bytes go to its end.
    (The 64 KiB buffer of the handle delays this until the handle is
    closed at the latest, which the [with] block does on every exit.) *)
Definition write (p : PurePath.t) (buf : bytes) (m : gmap PurePath.t node)
  : gmap PurePath.t node :=
  match m !! p with
  | Some (File data) => <[p := File (data ++ buf)]> m
  | _ => m
  end.

(** A file can be created at [p]: [p] is not a directory, and no file
    stands where a directory above [p] is needed. *)
Definition can_create (m : gmap PurePath.t node) (p : PurePath.t) : bool :=
  negb (is_dir m p)
  && forallb (fun q => negb (is_file m q))
             (PurePath.lineage (PurePath.parent p)).

End Fs.

(** The bytes a reader gets out of a stream: the chunks up to the end, an
    empty chunk being how the end is told. *)
Fixpoint content (s : stream) : bytes :=
  match s with
  | [] => []
  | [] :: _ => []
  | chunk :: s' => chunk ++ content s'
  end.

(** [stream.read(buffer_size)]: the next chunk, empty at the end of the
    stream. *)
Definition read (s : stream) : bytes * stream :=
  match s with
  | [] => ([], [])
  | chunk :: s' => (chunk, s')
  end.

(* ===================================================================== *)
(** * The registry *)
(* ===================================================================== *)

(** The revocation registry definition, a JSON object.  A field is
    [None] when the key is absent from the document.  ([id_] and [tag_]
    are the keys [id] and [tag].) *)
Record RevocRegDefValue := mkRevocRegDefValue {
  tailsLocation : option string;
  maxCredNum : option Z;
  tailsHash : option string
}.

Record RevocRegDef := mkRevocRegDef {
  id_ : option string;
  credDefId : option string;
  revocDefType : option string;
  tag_ : option string;
  value : option RevocRegDefValue
}.

(** [d[key]] *)
Definition getitem {A} (key : string) (field : option A) : result A :=
  match field with
  | Some v => Ok v
  | None => Raise (KeyError key)
  end.

(** The attributes of a [RevocationRegistry]; [None] is Python's [None],
    the default of every argument of [__init__]. *)
Record RevocationRegistry := mkRevocationRegistry {
  cred_def_id : option string;
  issuer_did : option string;
  max_creds : option Z;
  reg_def_type : option string;
  registry_id : option string;
  tag : option string;
  tails_local_path : option pathlike;
  tails_public_uri : option string;
  tails_hash : option string;
  reg_def : option RevocRegDef
}.

(** Python's truth test, as [if x:] and [if not x:] apply it to an
    attribute: [None] and the empty string are false, a [Path] is true. *)
Definition truthy_str (x : option string) : bool :=
  match x with
  | Some s => negb (String.eqb s "")
  | None => false
  end.

Definition truthy_path (x : option pathlike) : bool :=
  match x with
  | Some (Str s) => negb (String.eqb s "")
  | Some (PosixPath _) => true
  | None => false
  end.

(** The setter of the [tails_local_path] property. *)
Definition set_tails_local_path (new_path : option pathlike)
  (self : RevocationRegistry) : RevocationRegistry :=
  mkRevocationRegistry
    (cred_def_id self) (issuer_did self) (max_creds self)
    (reg_def_type self) (registry_id self) (tag self)
    new_path
    (tails_public_uri self) (tails_hash self) (reg_def self).

(** The setter of the [tails_public_uri] property. *)
Definition set_tails_public_uri (new_uri : option string)
  (self : RevocationRegistry) : RevocationRegistry :=
  mkRevocationRegistry
    (cred_def_id self) (issuer_did self) (max_creds self)
    (reg_def_type self) (registry_id self) (tag self)
    (tails_local_path self)
    new_uri (tails_hash self) (reg_def self).

(** The pattern of [from_definition], item by item:
    [^]  [.*?]  [(]  [[^:]*]  [)]  [:3:CL:]  [.*] *)
Definition issuer_did_pattern : list Re.item :=
  [ Re.Bol; Re.StarLazy Re.Dot;
    Re.GroupOpen; Re.StarGreedy (Re.NotChar ":"); Re.GroupClose;
    Re.Chr ":"; Re.Chr "3"; Re.Chr ":"; Re.Chr "C"; Re.Chr "L"; Re.Chr ":";
    Re.StarGreedy Re.Dot ]%char.

(** Two pieces of the pattern: what follows the group, and the group
    with all that follows it. *)
Definition after_group : list Re.item :=
  [ Re.GroupClose;
    Re.Chr ":"; Re.Chr "3"; Re.Chr ":"; Re.Chr "C"; Re.Chr "L"; Re.Chr ":";
    Re.StarGreedy Re.Dot ]%char.

Definition the_group : Re.cont :=
  Re.star_greedy (Re.NotChar ":") (Re.run after_group).

(** [RevocationRegistry.from_definition(revoc_reg_def, public_def)] *)
Definition from_definition (revoc_reg_def : RevocRegDef) (public_def : bool)
  : result RevocationRegistry :=
  reg_id ← getitem "id" (id_ revoc_reg_def);
  tails_location ←
    (v ← getitem "value" (value revoc_reg_def);
     getitem "tailsLocation" (tailsLocation v));
  cdi ← getitem "credDefId" (credDefId revoc_reg_def);
  let issuer_did_match := Re.match_ issuer_did_pattern cdi in
  let issuer_did :=
    match issuer_did_match with
    | Some m => Re.group1 m
    | None => None
    end in
  cdi ← getitem "credDefId" (credDefId revoc_reg_def);
  rdt ← getitem "revocDefType" (revocDefType revoc_reg_def);
  mcn ←
    (v ← getitem "value" (value revoc_reg_def);
     getitem "maxCredNum" (maxCredNum v));
  tg ← getitem "tag" (tag_ revoc_reg_def);
  th ←
    (v ← getitem "value" (value revoc_reg_def);
     getitem "tailsHash" (tailsHash v));
  mret (mkRevocationRegistry
          (Some cdi) issuer_did (Some mcn) (Some rdt) (Some reg_id) (Some tg)
          (if public_def then None else Some (Str tails_location))
          (if public_def then Some tails_location else None)
          (Some th)
          (Some revoc_reg_def)).

(** Modelled from the spec: the configuration provider
    ([InjectionContext] and its [settings], in [config/]) is not part of
    this file; it looks a setting up by key and falls back on the default
    it is given when the key has no value.  [settings] are the values by
    key, [settings_get] is [context.settings.get(key, default)]. *)
Record InjectionContext := mkInjectionContext {
  settings : gmap string string
}.

(** Modelled from the spec: [context.settings.get(key, default)], the
    lookup with a fallback of the absent configuration provider. *)
Definition settings_get (context : InjectionContext) (key : string)
  (default : pathlike) : pathlike :=
  match settings context !! key with
  | Some v => Str v
  | None => default
  end.

(** The state a method runs in: the registry object and the world. *)
Record State := mkState {
  self_ : RevocationRegistry;
  world : World
}.

(** Modelled from the spec: the transport ([fetch_stream], in
    [utils/http.py]) is not part of this file; given a URI it returns a
    readable chunked byte stream or fails with a transport error, here
    [FetchError].  Every call is recorded in [fetched]. *)
Definition fetch_stream (uri : string) : M State stream :=
  fun st =>
    let w := world st in
    let st' := mkState (self_ st)
                 (mkWorld (fs w) (remote w) (fetched w ++ [uri])) in
    match remote w !! uri with
    | Some body => (Ok body, st')
    | None => (Raise FetchError, st')
    end.

(** File system calls, lifted to the state of a method. *)
Definition with_fs {A} (f : gmap PurePath.t node -> A) : M State A :=
  fun st => (Ok (f (fs (world st))), st).

Definition update_fs
  (f : gmap PurePath.t node -> result (gmap PurePath.t node))
  : M State unit :=
  fun st =>
    let w := world st in
    match f (fs w) with
    | Ok m => (Ok tt, mkState (self_ st) (mkWorld m (remote w) (fetched w)))
    | Raise e => (Raise e, st)
    end.

Definition get_self : M State RevocationRegistry :=
  fun st => (Ok (self_ st), st).

Definition update_self (f : RevocationRegistry -> RevocationRegistry)
  : M State unit :=
  fun st => (Ok tt, mkState (f (self_ st)) (world st)).

(** The download loop of [retrieve_tails]:
    [while len(buf) > 0: update(buf); write(buf); buf = read()],
    with [buf] the chunk in hand and [tails_stream] what is left to
    read.  An exhausted stream reads as the empty chunk, which ends the
    loop. *)
Fixpoint download (p : PurePath.t) (tails_stream : stream) (buf : bytes)
  (file_hasher : Hash.hasher) (m : gmap PurePath.t node)
  : Hash.hasher * gmap PurePath.t node :=
  match buf with
  | [] => (file_hasher, m)
  | _ =>
      let file_hasher := Hash.update file_hasher buf in
      let m := Fs.write p buf m in
      match tails_stream with
      | [] => (file_hasher, m)
      | buf' :: tails_stream' => download p tails_stream' buf' file_hasher m
      end
  end.

(** The body of the [with open(...)] block up to the end of the loop:
    a fresh hasher, the first [read], the loop.  It returns the hasher. *)
Definition download_to (p : PurePath.t) (tails_stream : stream)
  : M State Hash.hasher :=
  fun st =>
    let w := world st in
    let (buf, rest) := read tails_stream in
    let (file_hasher, m) := download p rest buf Hash.new (fs w) in
    (Ok file_hasher, mkState (self_ st) (mkWorld m (remote w) (fetched w))).

Section Registry.

(** [tempfile.gettempdir()], fixed by the host. *)
Variable gettempdir : string.

(** [self.get_receiving_tails_local_path(context)].  [joinpath] raises
    [TypeError] on a [tails_hash] that is [None]. *)
Definition get_receiving_tails_local_path (self : RevocationRegistry)
  (context : InjectionContext) : result pathlike :=
  if truthy_path (tails_local_path self) then
    match tails_local_path self with
    | Some local_path => Ok local_path
    | None => Raise TypeError  (* not reached: [None] is not true *)
    end
  else
    let tails_file_dir :=
      settings_get context "holder.revocation.tails_files.path"
        (PosixPath (PurePath.of_segments
                      [gettempdir; "indy"; "revocation"; "tails_files"])) in
    match tails_hash self with
    | Some h =>
        Ok (Str (PurePath.str (PurePath.joinpath (Path tails_file_dir) h)))
    | None => Raise TypeError
    end.


(** [self.retrieve_tails(context)].  Past the first test the URI is a
    string, so the [default] is never used.  How the transport cuts the
    body in chunks (of [buffer_size] bytes at most) is its own affair:
    the loop takes them as they come.  The method returns
    [self.tails_local_path], the path object it has just stored there. *)
Definition retrieve_tails (context : InjectionContext) : M State pathlike :=
  self ← get_self;
  if negb (truthy_str (tails_public_uri self)) then
    raise (RevocationError "Tails file public URI is empty")
  else
    tails_stream ←
      try_except (fetch_stream (default "" (tails_public_uri self)))
        (fun e =>
           match e with
           | FetchError => raise (RevocationError "Error retrieving tails file")
           | _ => raise e
           end);
    receiving ← lift (get_receiving_tails_local_path self context);
    let tails_file_path := Path receiving in
    let tails_file_dir := PurePath.parent tails_file_path in
    dir_exists ← with_fs (fun m => Fs.exists_ m tails_file_dir);
    (if negb dir_exists then update_fs (Fs.mkdir_parents tails_file_dir)
     else mret tt);;
    update_fs (Fs.open_wb tails_file_path);;
    file_hasher ← download_to tails_file_path tails_stream;
    let download_tails_hash := Hash.b58encode (Hash.digest file_hasher) in
    if negb (bool_decide (Some download_tails_hash = tails_hash self)) then
      raise (RevocationError
               "The hash of the downloaded tails file does not match.")
    else
      update_self (set_tails_local_path (Some (PosixPath tails_file_path)));;
      mret (PosixPath tails_file_path).

(** [self.get_or_fetch_local_tails_path(context)] *)
Definition get_or_fetch_local_tails_path (context : InjectionContext)
  : M State pathlike :=
  self ← get_self;
  tails_file_path ← lift (get_receiving_tails_local_path self context);
  is_file ← with_fs (fun m => Fs.is_file m (Path tails_file_path));
  if (is_file : bool) then mret tails_file_path
  else retrieve_tails context.

End Registry.

(* ===================================================================== *)
(** * Notions used in the statements *)
(* ===================================================================== *)

(** The state after the transport was asked for [uri], with [m] as the
    file system. *)
Definition asked (uri : string) (m : gmap PurePath.t node) (st : State)
  : State :=
  mkState (self_ st)
    (mkWorld m (remote (world st)) (fetched (world st) ++ [uri])).

(** A definition document that has every field [from_definition] reads. *)
Definition complete (d : RevocRegDef) : bool :=
  match id_ d, credDefId d, revocDefType d, tag_ d, value d with
  | Some _, Some _, Some _, Some _, Some v =>
      match tailsLocation v, maxCredNum v, tailsHash v with
      | Some _, Some _, Some _ => true
      | _, _, _ => false
      end
  | _, _, _, _, _ => false
  end.

(** [d["value"]["tailsLocation"]] when it is there. *)
Definition tails_location_of (d : RevocRegDef) : option string :=
  v ← value d; tailsLocation v.

(** The digest a tails file is declared under. *)
Definition tails_digest (data : bytes) : string :=
  Hash.b58encode (Hash.sha256 data).

(* ===================================================================== *)
(** * A registry, a cache directory and a tails server *)
(* ===================================================================== *)

Module Sample.

Definition abc_hash : string := "DYu3G8aGTMBW1WrTw76zxQJQU4DHLw9MLyy7peG4LKkY".
Definition abc_uri : string := "http://tails.example/abc".
Definition cred_def : string := "WgWxqztrNooG92RXvxSTWv:3:CL:20:tag".
Definition rev_reg_id : string :=
  "WgWxqztrNooG92RXvxSTWv:4:WgWxqztrNooG92RXvxSTWv:3:CL:20:tag:CL_ACCUM:0".

(** A definition whose tails file is the three bytes [abc]. *)
Definition definition (location : string) : RevocRegDef :=
  mkRevocRegDef (Some rev_reg_id) (Some cred_def) (Some "CL_ACCUM"%string)
    (Some "0"%string)
    (Some (mkRevocRegDefValue (Some location) (Some 100) (Some abc_hash))).

(** The registry [from_definition] builds from it. *)
Definition registry (location : string) (public_def : bool)
  : RevocationRegistry :=
  mkRevocationRegistry
    (Some cred_def) (Some "WgWxqztrNooG92RXvxSTWv"%string) (Some 100)
    (Some "CL_ACCUM"%string) (Some rev_reg_id) (Some "0"%string)
    (if public_def then None else Some (Str location))
    (if public_def then Some location else None)
    (Some abc_hash)
    (Some (definition location)).

Definition public : RevocationRegistry := registry abc_uri true.
Definition local : RevocationRegistry := registry "/var/tails/abc" false.

(** Settings with and without a cache directory. *)
Definition cache : InjectionContext :=
  mkInjectionContext
    (<["holder.revocation.tails_files.path"%string := "/cache"%string]> ∅).
Definition no_settings : InjectionContext := mkInjectionContext ∅.

Definition cached_abc : PurePath.t := PurePath.mk "/" ["cache"; abc_hash].

(** A server that sends [abc] in two chunks, and one that sends
    something else under the same address. *)
Definition abc : stream := [bytes_of_string "ab"; bytes_of_string "c"].
Definition honest : gmap string stream := <[abc_uri := abc]> ∅.
Definition corrupt : gmap string stream :=
  <[abc_uri := [bytes_of_string "abd"]]> ∅.

(** An empty disk, and one where the cache already holds a file under the
    name of the tails file. *)
Definition empty_disk : gmap PurePath.t node := ∅.
Definition stale_disk : gmap PurePath.t node :=
  <[cached_abc := File (bytes_of_string "old content")]>
    (<[PurePath.mk "/" ["cache"] := Dir]> ∅).

Definition fresh : State := mkState public (mkWorld empty_disk honest []).
Definition fooled : State := mkState public (mkWorld empty_disk corrupt []).
Definition stale : State := mkState public (mkWorld stale_disk honest []).
Definition offline : State := mkState local (mkWorld empty_disk honest []).

End Sample.

(* ===================================================================== *)
(** * The rest of the class, and more notions for the statements *)
(* ===================================================================== *)

(** [RevocationRegistry(registry_id, cred_def_id=..., ...)]: [__init__]
    stores its arguments, each of them [None] when it is not given. *)
Definition init (registry_id cred_def_id issuer_did : option string)
  (max_creds : option Z) (reg_def_type tag : option string)
  (tails_local_path : option pathlike)
  (tails_public_uri tails_hash : option string)
  (reg_def : option RevocRegDef) : RevocationRegistry :=
  mkRevocationRegistry cred_def_id issuer_did max_creds reg_def_type
    registry_id tag tails_local_path tails_public_uri tails_hash reg_def.

(** [RevocationRegistry()] *)
Definition blank : RevocationRegistry :=
  init None None None None None None None None None None.

(** The keys [from_definition] reads, in the order it first reads them,
    and whether a document has one of them; the three last-level keys
    are looked up in the object under [value]. *)
Definition reading_order : list string :=
  [ "id"; "value"; "tailsLocation"; "credDefId"; "revocDefType";
    "maxCredNum"; "tag"; "tailsHash" ]%string.

Definition under_value {A} (d : RevocRegDef)
  (field : RevocRegDefValue -> option A) : bool :=
  match value d with
  | Some v => bool_decide (is_Some (field v))
  | None => false
  end.

Definition has_key (d : RevocRegDef) (key : string) : bool :=
  if String.eqb key "id" then bool_decide (is_Some (id_ d))
  else if String.eqb key "value" then bool_decide (is_Some (value d))
  else if String.eqb key "tailsLocation" then under_value d tailsLocation
  else if String.eqb key "credDefId" then bool_decide (is_Some (credDefId d))
  else if String.eqb key "revocDefType"
       then bool_decide (is_Some (revocDefType d))
  else if String.eqb key "maxCredNum" then under_value d maxCredNum
  else if String.eqb key "tag" then bool_decide (is_Some (tag_ d))
  else if String.eqb key "tailsHash" then under_value d tailsHash
  else false.

(** The first key of the reading order that the document lacks. *)
Definition first_missing (d : RevocRegDef) : option string :=
  List.find (fun key => negb (has_key d key)) reading_order.

(** A string that [pathlib] takes for one path component: not empty, not
    a single dot, and without a slash. *)
Definition plain_name (h : string) : bool :=
  PurePath.keep_component h && Re.lacks "/" h.

(** A path as [pathlib] builds them: one of the three roots, and plain
    names as components. *)
Definition normal (p : PurePath.t) : Prop :=
  In (PurePath.root p) [""; "/"; "//"]%string
  /\ Forall (fun c => plain_name c = true) (PurePath.parts p).

(** What one path holds after a call, set against what it held
    before: the same, or the downloaded file, or a new directory above
    the file. *)
Definition touched (tmp : string) (context : InjectionContext)
  (st st' : State) (q : PurePath.t) : Prop :=
  fs (world st') !! q = fs (world st) !! q
  \/ exists receiving,
       get_receiving_tails_local_path tmp (self_ st) context = Ok receiving
       /\ ((q = Path receiving
            /\ exists data, fs (world st') !! q = Some (File data))
           \/ (In q (PurePath.lineage (PurePath.parent (Path receiving)))
               /\ fs (world st) !! q = None
               /\ fs (world st') !! q = Some Dir)).

(** The step of [retrieve_tails] that makes the directory of the file
    when it is not there. *)
Definition make_parent (p : PurePath.t) (m : gmap PurePath.t node)
  : result (gmap PurePath.t node) :=
  if negb (Fs.exists_ m (PurePath.parent p))
  then Fs.mkdir_parents (PurePath.parent p) m
  else Ok m.

(** The seven ways a call of [retrieve_tails] ends, each with its result
    and the state it leaves: at the first test, at the transport, at the
    path, at the directory, at the open, and at the hash check, passed
    or not. *)
Inductive retrieve_ends (tmp : string) (context : InjectionContext)
  (st : State) : result pathlike -> State -> Prop :=
| ends_no_uri :
    truthy_str (tails_public_uri (self_ st)) = false ->
    retrieve_ends tmp context st (Raise MissingPublicLocation) st
| ends_no_stream uri :
    tails_public_uri (self_ st) = Some uri -> uri <> ""%string ->
    remote (world st) !! uri = None ->
    retrieve_ends tmp context st (Raise FetchFailure)
      (asked uri (fs (world st)) st)
| ends_no_path uri tails_stream :
    tails_public_uri (self_ st) = Some uri -> uri <> ""%string ->
    remote (world st) !! uri = Some tails_stream ->
    get_receiving_tails_local_path tmp (self_ st) context = Raise TypeError ->
    retrieve_ends tmp context st (Raise TypeError)
      (asked uri (fs (world st)) st)
| ends_no_directory uri tails_stream receiving k :
    tails_public_uri (self_ st) = Some uri -> uri <> ""%string ->
    remote (world st) !! uri = Some tails_stream ->
    get_receiving_tails_local_path tmp (self_ st) context = Ok receiving ->
    make_parent (Path receiving) (fs (world st)) = Raise (OSError k) ->
    retrieve_ends tmp context st (Raise (OSError k))
      (asked uri (fs (world st)) st)
| ends_not_opened uri tails_stream receiving m1 k :
    tails_public_uri (self_ st) = Some uri -> uri <> ""%string ->
    remote (world st) !! uri = Some tails_stream ->
    get_receiving_tails_local_path tmp (self_ st) context = Ok receiving ->
    make_parent (Path receiving) (fs (world st)) = Ok m1 ->
    Fs.open_wb (Path receiving) m1 = Raise (OSError k) ->
    retrieve_ends tmp context st (Raise (OSError k)) (asked uri m1 st)
| ends_mismatch uri tails_stream receiving m1 :
    tails_public_uri (self_ st) = Some uri -> uri <> ""%string ->
    remote (world st) !! uri = Some tails_stream ->
    get_receiving_tails_local_path tmp (self_ st) context = Ok receiving ->
    make_parent (Path receiving) (fs (world st)) = Ok m1 ->
    Fs.open_wb (Path receiving) m1 = Ok (<[Path receiving := File []]> m1) ->
    tails_hash (self_ st) <> Some (tails_digest (content tails_stream)) ->
    retrieve_ends tmp context st (Raise HashMismatch)
      (asked uri (<[Path receiving := File (content tails_stream)]> m1) st)
| ends_well uri tails_stream receiving m1 :
    tails_public_uri (self_ st) = Some uri -> uri <> ""%string ->
    remote (world st) !! uri = Some tails_stream ->
    get_receiving_tails_local_path tmp (self_ st) context = Ok receiving ->
    make_parent (Path receiving) (fs (world st)) = Ok m1 ->
    Fs.open_wb (Path receiving) m1 = Ok (<[Path receiving := File []]> m1) ->
    tails_hash (self_ st) = Some (tails_digest (content tails_stream)) ->
    retrieve_ends tmp context st (Ok (PosixPath (Path receiving)))
      (mkState
         (set_tails_local_path (Some (PosixPath (Path receiving))) (self_ st))
         (world
            (asked uri
               (<[Path receiving := File (content tails_stream)]> m1) st))).

(** The directory [get_receiving_tails_local_path] puts the file in: the
    one of the settings, or the one under the temporary directory. *)
Definition configured_dir (tmp : string) (context : InjectionContext)
  : PurePath.t :=
  Path (settings_get context "holder.revocation.tails_files.path"
          (PosixPath
             (PurePath.of_segments
                [tmp; "indy"; "revocation"; "tails_files"]%string))).

(* ===================================================================== *)
(** * Facts: the library functions on known values *)
(* ===================================================================== *)

Example sha256_constants :
  firstn 2 Hash.K = [0x428a2f98; 0x71374491]
  /\ nth 63 Hash.K 0 = 0xc67178f2
  /\ length Hash.K = 64%nat
  /\ firstn 2 Hash.H0 = [0x6a09e667; 0xbb67ae85]
  /\ nth 7 Hash.H0 0 = 0x5be0cd19.
Proof. vm_compute. repeat split; reflexivity. Qed.

Example sha256_abc :
  tails_digest (bytes_of_string "abc") = Sample.abc_hash.
Proof. vm_compute. reflexivity. Qed.

Example sha256_empty :
  tails_digest [] = "GKot5hBsd81kMupNCXHaqbhv3huEbxAFMLnpcX2hniwn"%string.
Proof. vm_compute. reflexivity. Qed.

Example b58encode_hello :
  Hash.b58encode (bytes_of_string "hello world") = "StV1DL6CwTryKyV"%string.
Proof. vm_compute. reflexivity. Qed.

Example b58encode_leading_zeros :
  Hash.b58encode (Byte.x00 :: Byte.x00 :: bytes_of_string "ab")
  = "118Qq"%string.
Proof. vm_compute. reflexivity. Qed.

Example str_parse :
  map (fun s => PurePath.str (PurePath.parse s))
      [""; "."; "/"; "//"; "///"; "//a//b/./c/"; "a/../b"; "./a"; "/a/b"]%string
  = [ "."; "."; "/"; "//"; "/"; "//a/b/c"; "a/../b"; "a"; "/a/b"]%string.
Proof. vm_compute. reflexivity. Qed.

Example str_parent :
  map (fun s => PurePath.str (PurePath.parent (PurePath.parse s)))
      [""; "/"; "//a//b/./c/"; "a/../b"; "./a"; "/a/b"]%string
  = [ "."; "/"; "//a/b"; "a/.."; "."; "/a"]%string.
Proof. vm_compute. reflexivity. Qed.

Example str_joinpath :
  map (fun ds => PurePath.str (PurePath.joinpath (PurePath.parse (fst ds))
                                 (snd ds)))
      [("/cache", "h"); ("/cache/", "h"); ("/cache", "/abs"); ("", "h")]%string
  = [ "/cache/h"; "/cache/h"; "/abs"; "h"]%string.
Proof. vm_compute. reflexivity. Qed.

Example issuer_did_matches :
  map (fun s => match Re.match_ issuer_did_pattern s with
                | Some m => Re.group1 m
                | None => None
                end)
      [ "ABC:3:CL:x"; "did:sov:ABC:3:CL:12:tag"; "a:3:CL"; ":3:CL:";
        "x:3:CL:y:3:CL:z"; "ab3:CL:" ]%string
  = [ Some "ABC"; Some "ABC"; None; Some ""; Some "x"; None ]%string.
Proof. vm_compute. reflexivity. Qed.

Example from_definition_malformed :
  from_definition
    (mkRevocRegDef (Some Sample.rev_reg_id) (Some Sample.cred_def)
       (Some "CL_ACCUM"%string) None None) true
  = Raise (MalformedDefinition "value").
Proof. reflexivity. Qed.

Example from_definition_example :
  from_definition (Sample.definition Sample.abc_uri) true
  = Ok Sample.public
  /\ from_definition (Sample.definition "/var/tails/abc") false
     = Ok Sample.local.
Proof. split; vm_compute; reflexivity. Qed.

(* ===================================================================== *)
(** * Facts: strings and the issuer pattern *)
(* ===================================================================== *)

Lemma append_nil_l (s : string) : "" +:+ s = s.
Proof. reflexivity. Qed.

Lemma append_cons (a : ascii) (s t : string) :
  String a s +:+ t = String a (s +:+ t).
Proof. reflexivity. Qed.

Lemma append_nil_r (s : string) : s +:+ "" = s.
Proof.
  induction s as [|a s IH]; [reflexivity|].
  now rewrite append_cons, IH.
Qed.

Lemma append_assoc (s1 s2 s3 : string) :
  (s1 +:+ s2) +:+ s3 = s1 +:+ (s2 +:+ s3).
Proof.
  induction s1 as [|a s1 IH]; [reflexivity|].
  now rewrite !append_cons, IH.
Qed.

Lemma append_snoc (acc : string) (a : ascii) (d : string) :
  (acc +:+ String a "") +:+ d = acc +:+ String a d.
Proof. now rewrite append_assoc. Qed.

Ltac push_append := rewrite ?append_cons, ?append_nil_l in *.

Module ReFacts.
Import Re.

Lemma pattern_unfold (s : string) :
  match_ issuer_did_pattern s
  = star_lazy Dot (fun pos s g => the_group pos s (Reading "")) 0 s NotYet.
Proof. reflexivity. Qed.

(** The lazy star stops where the rest of the pattern matches. *)
Lemma star_lazy_first (cl : cclass) (k : cont) (pos : nat) (s : string)
  (g r : group) :
  k pos s g = Some r -> star_lazy cl k pos s g = Some r.
Proof. intros Hk. destruct s; cbn [star_lazy]; now rewrite Hk. Qed.

(** The final [.*] accepts whatever is left and leaves the group alone. *)
Lemma trailing_any (s : string) : forall pos txt,
  star_greedy Dot (run []) pos s (Closed txt) = Some (Closed txt).
Proof.
  induction s as [|a s IH]; intros pos txt; cbn [star_greedy].
  - reflexivity.
  - destruct (accepts Dot a); [|reflexivity].
    cbn [feed]. now rewrite IH.
Qed.

Lemma after_group_marker (pos : nat) (acc post : string) :
  run after_group pos (":3:CL:" +:+ post) (Reading acc) = Some (Closed acc).
Proof. push_append. simpl. apply trailing_any. Qed.

Ltac next_char s :=
  let a := fresh "a" in
  destruct s as [|a s]; [discriminate|];
  match goal with
  | H : context [Ascii.eqb a ?c] |- _ =>
      destruct (Ascii.eqb_spec a c); [subst a | discriminate]
  end.

Lemma after_group_inv (pos : nat) (s acc : string) (g : group) :
  run after_group pos s (Reading acc) = Some g ->
  g = Closed acc /\ exists post, s = ":3:CL:" +:+ post.
Proof.
  unfold after_group. cbn [run feed]. intros H.
  do 6 next_char s.
  rewrite trailing_any in H. injection H as <-.
  split; [reflexivity | now exists s].
Qed.

(** The group takes a run of characters other than the colon that the
    marker follows. *)
Lemma the_group_inv (s : string) : forall pos acc g,
  the_group pos s (Reading acc) = Some g ->
  exists d post,
    s = d +:+ ":3:CL:" +:+ post /\ lacks ":" d = true
    /\ g = Closed (acc +:+ d).
Proof.
  unfold the_group.
  induction s as [|a s IH]; intros pos acc g H.
  - simpl in H. discriminate.
  - cbn [star_greedy] in H.
    assert (Hstop : run after_group pos (String a s) (Reading acc) = Some g ->
                    exists d post,
                      String a s = d +:+ ":3:CL:" +:+ post
                      /\ lacks ":" d = true /\ g = Closed (acc +:+ d)).
    { intros Hk. apply after_group_inv in Hk as [-> [post ->]].
      exists ""%string, post. now rewrite append_nil_r. }
    destruct (accepts (NotChar ":") a) eqn:Ha; [|now apply Hstop].
    destruct (star_greedy (NotChar ":") (run after_group) (S pos) s
                (feed a (Reading acc))) as [r|] eqn:Hr; [|now apply Hstop].
    injection H as ->.
    apply IH in Hr as (d & post & -> & Hd & ->).
    exists (String a d), post. repeat split.
    + simpl. simpl in Ha. now rewrite Ha, Hd.
    + now rewrite append_snoc.
Qed.

Lemma the_group_takes (d : string) : forall pos acc post,
  lacks ":" d = true ->
  the_group pos (d +:+ ":3:CL:" +:+ post) (Reading acc)
  = Some (Closed (acc +:+ d)).
Proof.
  unfold the_group.
  induction d as [|a d IH]; intros pos acc post Hd.
  - rewrite append_nil_r. push_append. simpl. apply trailing_any.
  - simpl in Hd. apply andb_prop in Hd as [Ha Hd].
    rewrite append_cons.
    cbn [star_greedy accepts]. rewrite Ha.
    cbn [feed]. rewrite (IH _ _ _ Hd). now rewrite append_snoc.
Qed.

(** A match of the whole pattern: the subject is a prefix that the lazy
    [.*?] skipped, the group, the marker and a rest; the prefix is empty
    or ends with a colon, so the group is a whole component. *)
Lemma lazy_prefix_inv (s : string) : forall pos g,
  star_lazy Dot (fun pos s g => the_group pos s (Reading "")) pos s NotYet
  = Some g ->
  exists pre d post,
    s = pre +:+ d +:+ ":3:CL:" +:+ post
    /\ lacks ":" d = true
    /\ g = Closed d
    /\ (pre = ""%string \/ exists pre', pre = pre' +:+ ":").
Proof.
  induction s as [|a s IH]; intros pos g H.
  - cbn [star_lazy] in H.
    destruct (the_group pos "" (Reading "")) as [r|] eqn:Hr; [|discriminate].
    injection H as ->.
    apply the_group_inv in Hr as (d & post & Hs & Hd & ->).
    exists ""%string, d, post. auto.
  - cbn [star_lazy] in H.
    destruct (the_group pos (String a s) (Reading "")) as [r|] eqn:Hr.
    + injection H as ->.
      apply the_group_inv in Hr as (d & post & Hs & Hd & ->).
      exists ""%string, d, post. auto.
    + destruct (accepts Dot a) eqn:Ha; [|discriminate].
      cbn [feed] in H.
      apply IH in H as (pre & d & post & -> & Hd & -> & Hpre).
      exists (String a pre), d, post. repeat split; auto.
      right. destruct Hpre as [-> | [pre' ->]].
      * destruct (Ascii.eqb_spec a ":") as [-> | Hne].
        -- now exists ""%string.
        -- exfalso.
           assert (Hd' : lacks ":" (String a d) = true).
           { simpl. rewrite Hd.
             destruct (Ascii.eqb_spec a ":"); [contradiction | reflexivity]. }
           pose proof (the_group_takes (String a d) pos "" post Hd') as Hk.
           push_append. rewrite Hk in Hr. discriminate.
      * now exists (String a pre').
Qed.

Lemma match_inv (s : string) (g : group) :
  match_ issuer_did_pattern s = Some g ->
  exists pre d post,
    s = pre +:+ d +:+ ":3:CL:" +:+ post
    /\ lacks ":" d = true
    /\ g = Closed d
    /\ (pre = ""%string \/ exists pre', pre = pre' +:+ ":").
Proof. rewrite pattern_unfold. apply lazy_prefix_inv. Qed.

(** The lazy [.*?] gets past any prefix without a newline, so a marker
    after such a prefix is found. *)
Lemma lazy_prefix_reaches (pre : string) : forall pos rest,
  lacks newline pre = true ->
  (forall pos', exists r, the_group pos' rest (Reading "") = Some r) ->
  exists r,
    star_lazy Dot (fun pos s g => the_group pos s (Reading "")) pos
      (pre +:+ rest) NotYet = Some r.
Proof.
  induction pre as [|a pre IH]; intros pos rest Hpre Hrest.
  - destruct (Hrest pos) as [r Hr]. exists r.
    rewrite append_nil_l. now apply star_lazy_first.
  - cbn [lacks] in Hpre. apply andb_prop in Hpre as [Ha Hpre].
    rewrite append_cons. cbn [star_lazy].
    destruct (the_group pos (String a (pre +:+ rest)) (Reading "")) as [r|];
      [now exists r|].
    cbn [accepts]. rewrite Ha. cbn [feed]. now apply IH.
Qed.

Lemma match_marker (pre post : string) :
  lacks newline pre = true ->
  exists d, match_ issuer_did_pattern (pre +:+ ":3:CL:" +:+ post)
            = Some (Closed d).
Proof.
  intros Hpre.
  destruct (lazy_prefix_reaches pre 0 (":3:CL:" +:+ post) Hpre) as [r Hr].
  { intros pos'. exists (Closed "").
    apply (the_group_takes "" pos' "" post). reflexivity. }
  rewrite pattern_unfold, Hr.
  apply lazy_prefix_inv in Hr as (_ & d & _ & _ & _ & -> & _).
  now exists d.
Qed.

Lemma match_component (d post : string) :
  lacks ":" d = true ->
  match_ issuer_did_pattern (d +:+ ":3:CL:" +:+ post) = Some (Closed d).
Proof.
  intros Hd. rewrite pattern_unfold. apply star_lazy_first.
  now rewrite (the_group_takes d 0 "" post Hd).
Qed.

End ReFacts.

(* ===================================================================== *)
(** * Facts: paths and the file system *)
(* ===================================================================== *)

Module FsFacts.
Import PurePath Fs.

Lemma lineage_In (p q : PurePath.t) :
  In q (lineage p) <->
  exists n, (1 <= n <= length (parts p))%nat
            /\ q = mk (root p) (firstn n (parts p)).
Proof.
  unfold lineage. rewrite in_map_iff. split.
  - intros (n & <- & Hn). apply in_seq in Hn. exists n.
    split; [lia | reflexivity].
  - intros (n & Hn & ->). exists n. split; [reflexivity|]. apply in_seq. lia.
Qed.

(** A path is the last of its lineage, and is not in its parent's. *)
Lemma lineage_self (p : PurePath.t) :
  parts p <> [] -> In p (lineage p).
Proof.
  intros Hp. apply lineage_In. exists (length (parts p)). split.
  - destruct (parts p); [congruence | simpl; lia].
  - rewrite firstn_all. now destruct p.
Qed.

Lemma parent_parts_length (p : PurePath.t) :
  parts p <> [] -> S (length (parts (parent p))) = length (parts p).
Proof.
  intros Hp. unfold parent. cbn [parts].
  destruct (exists_last Hp) as (l & a & ->).
  rewrite removelast_last, length_app. simpl. lia.
Qed.

Lemma lineage_parent_not_self (p : PurePath.t) :
  ~ In p (lineage (parent p)).
Proof.
  intros Hin. apply lineage_In in Hin as (n & Hn & Hq).
  destruct (parts p) as [|c l] eqn:Hp.
  - unfold parent in Hn. rewrite Hp in Hn. simpl in Hn. lia.
  - assert (Hne : parts p <> []) by congruence.
    pose proof (parent_parts_length p Hne) as Hlen.
    apply (f_equal (fun x => length (parts x))) in Hq.
    cbn [parts] in Hq. rewrite length_firstn in Hq. lia.
Qed.

Lemma lineage_parts (p q : PurePath.t) :
  In q (lineage p) -> parts q <> [].
Proof.
  intros Hin. apply lineage_In in Hin as (n & Hn & ->). cbn [parts].
  destruct (parts p) as [|c l]; [simpl in Hn; lia|].
  destruct n; [lia | discriminate].
Qed.

Lemma stat_lookup (m : gmap PurePath.t node) (p : PurePath.t) :
  parts p <> [] -> stat m p = m !! p.
Proof. unfold stat. now destruct (parts p). Qed.

(** [makedirs] succeeds when no file is in the way; the paths it was
    given are directories afterwards, directories stay, and nothing else
    changes. *)
Lemma makedirs_ok (ps : list PurePath.t) : forall m : gmap PurePath.t node,
  (forall q c, In q ps -> m !! q <> Some (File c)) ->
  exists m' : gmap PurePath.t node,
    makedirs ps m = Ok m'
    /\ (forall q, In q ps -> m' !! q = Some Dir)
    /\ (forall q, ~ In q ps -> m' !! q = m !! q)
    /\ (forall q, m !! q = Some Dir -> m' !! q = Some Dir).
Proof.
  induction ps as [|p ps IH]; intros m Hfree.
  - exists m. simpl. repeat split; auto. intros q [].
  - cbn [makedirs].
    destruct (m !! p) as [[c|]|] eqn:Hp.
    + exfalso. apply (Hfree p c); [now left | exact Hp].
    + destruct (IH m) as (m' & Hrun & Hdirs & Hframe & Hkeep).
      { intros q c Hq. apply Hfree. now right. }
      exists m'. repeat split; auto.
      * intros q [<- | Hq]; auto.
      * intros q Hq. apply Hframe. intros Hin. apply Hq. now right.
    + destruct (IH (<[p := Dir]> m)) as (m' & Hrun & Hdirs & Hframe & Hkeep).
      { intros q c Hq. destruct (decide (p = q)) as [-> | Hne].
        - rewrite lookup_insert_eq. discriminate.
        - rewrite lookup_insert_ne by exact Hne. apply Hfree. now right. }
      exists m'. repeat split; auto.
      * intros q [<- | Hq]; auto.
        apply Hkeep. apply lookup_insert_eq.
      * intros q Hq.
        rewrite Hframe by (intros Hin; apply Hq; now right).
        apply lookup_insert_ne. intros ->. apply Hq. now left.
      * intros q Hq. apply Hkeep.
        rewrite lookup_insert_ne; [exact Hq | intros ->; congruence].
Qed.

(** What [can_create] says about the map. *)
Lemma can_create_inv (m : gmap PurePath.t node) (p : PurePath.t) :
  can_create m p = true ->
  parts p <> []
  /\ m !! p <> Some Dir
  /\ (forall q c, In q (lineage (parent p)) -> m !! q <> Some (File c)).
Proof.
  unfold can_create. intros H. apply andb_prop in H as [Hdir Hway].
  unfold is_dir, stat in Hdir.
  destruct (parts p) as [|c0 l] eqn:Hp; [discriminate|].
  split; [discriminate|]. split.
  - intros Heq. now rewrite Heq in Hdir.
  - intros q c Hq Hfile. rewrite forallb_forall in Hway.
    specialize (Hway q Hq). unfold is_file in Hway.
    rewrite (stat_lookup m q (lineage_parts _ _ Hq)), Hfile in Hway.
    discriminate.
Qed.

(** The two steps of [retrieve_tails] before the download: make the
    parent directory when it is missing, open the file. *)
Lemma create_ok (m : gmap PurePath.t node) (p : PurePath.t) :
  can_create m p = true ->
  exists m1 : gmap PurePath.t node,
    (if negb (exists_ m (parent p)) then mkdir_parents (parent p) m
     else Ok m) = Ok m1
    /\ open_wb p m1 = Ok (<[p := File []]> m1)
    /\ parts p <> [].
Proof.
  intros H. apply can_create_inv in H as (Hparts & Hnodir & Hway).
  assert (Hparent : parts (parent p) <> [] ->
                    In (parent p) (lineage (parent p)))
    by apply lineage_self.
  unfold exists_. destruct (stat m (parent p)) as [nd|] eqn:Hst; cbn [negb].
  - exists m. split; [reflexivity|]. split; [|exact Hparts].
    unfold open_wb. rewrite (stat_lookup m p Hparts).
    assert (Hnd : nd = Dir).
    { destruct nd as [c|]; [|reflexivity]. exfalso.
      unfold stat in Hst. destruct (parts (parent p)) eqn:Hpp; [discriminate|].
      apply (Hway (parent p) c); [apply Hparent; congruence | exact Hst]. }
    rewrite Hst, Hnd.
    destruct (m !! p) as [[c|]|]; [reflexivity | congruence | reflexivity].
  - assert (Hpp : parts (parent p) <> []).
    { unfold stat in Hst. destruct (parts (parent p)); discriminate. }
    destruct (makedirs_ok (lineage (parent p)) m Hway)
      as (m1 & Hrun & Hdirs & Hframe & _).
    exists m1. unfold mkdir_parents. rewrite Hst. split; [exact Hrun|].
    split; [|exact Hparts].
    unfold open_wb. rewrite (stat_lookup m1 p Hparts).
    rewrite (Hframe p (lineage_parent_not_self p)).
    rewrite (stat_lookup m1 _ Hpp), (Hdirs _ (Hparent Hpp)).
    destruct (m !! p) as [[c|]|]; [reflexivity | congruence | reflexivity].
Qed.

End FsFacts.

(* ===================================================================== *)
(** * Facts: the download loop *)
(* ===================================================================== *)

(** The first [read] and the chunks left hold the content of the stream. *)
Lemma content_read (s : stream) :
  content (fst (read s) :: snd (read s)) = content s.
Proof. destruct s as [|c s]; reflexivity. Qed.

(** A stream none of whose chunks is empty holds their concatenation. *)
Lemma content_concat (s : stream) :
  Forall (fun chunk => chunk <> []) s -> content s = concat s.
Proof.
  induction 1 as [|c s Hc _ IH]; [reflexivity|].
  destruct c as [|b c]; [congruence|]. simpl. now rewrite IH.
Qed.

(** The loop feeds the hasher and the file the content of the stream. *)
Lemma download_spec (p : PurePath.t) (rest : stream) :
  forall (buf : bytes) (h : Hash.hasher) (m : gmap PurePath.t node)
         (old : bytes),
    m !! p = Some (File old) ->
    download p rest buf h m
    = (h ++ content (buf :: rest),
       <[p := File (old ++ content (buf :: rest))]> m).
Proof.
  induction rest as [|buf' rest IH]; intros buf h m old Hp.
  - destruct buf as [|b buf]; cbn [download content].
    + rewrite !app_nil_r. now rewrite insert_id.
    + unfold Fs.write, Hash.update. rewrite Hp, !app_nil_r. reflexivity.
  - destruct buf as [|b buf]; cbn [download].
    + cbn [content]. rewrite !app_nil_r. now rewrite insert_id.
    + unfold Fs.write at 1. rewrite Hp.
      rewrite (IH buf' _ _ (old ++ b :: buf)) by apply lookup_insert_eq.
      unfold Hash.update. rewrite insert_insert_eq.
      change (content ((b :: buf) :: buf' :: rest))
        with ((b :: buf) ++ content (buf' :: rest)).
      now rewrite <- !app_assoc.
Qed.

(** The loop, one turn at a time: it ends on an empty chunk, and
    otherwise hashes and writes the chunk and reads the next one. *)
Lemma download_done (p : PurePath.t) (tails_stream : stream)
  (h : Hash.hasher) (m : gmap PurePath.t node) :
  download p tails_stream [] h m = (h, m).
Proof. destruct tails_stream; reflexivity. Qed.

Lemma download_turn (p : PurePath.t) (tails_stream : stream) (buf : bytes)
  (h : Hash.hasher) (m : gmap PurePath.t node) :
  buf <> [] ->
  download p tails_stream buf h m
  = download p (snd (read tails_stream)) (fst (read tails_stream))
      (Hash.update h buf) (Fs.write p buf m).
Proof.
  intros Hbuf. destruct buf as [|b buf]; [congruence|].
  destruct tails_stream as [|buf' rest]; reflexivity.
Qed.

(* ===================================================================== *)
(** * Facts: the methods, step by step *)
(* ===================================================================== *)

(** [retrieve_tails] with the monad unfolded: one case for each place
    where the method can stop. *)
Lemma retrieve_tails_unfold (tmp : string) (context : InjectionContext)
  (st : State) :
  retrieve_tails tmp context st =
  let self := self_ st in
  let m := fs (world st) in
  if negb (truthy_str (tails_public_uri self)) then
    (Raise MissingPublicLocation, st)
  else
    let uri := default ""%string (tails_public_uri self) in
    match remote (world st) !! uri with
    | None => (Raise FetchFailure, asked uri m st)
    | Some tails_stream =>
        match get_receiving_tails_local_path tmp self context with
        | Raise e => (Raise e, asked uri m st)
        | Ok receiving =>
            let p := Path receiving in
            match (if negb (Fs.exists_ m (PurePath.parent p))
                   then Fs.mkdir_parents (PurePath.parent p) m
                   else Ok m) with
            | Raise e => (Raise e, asked uri m st)
            | Ok m1 =>
                match Fs.open_wb p m1 with
                | Raise e => (Raise e, asked uri m1 st)
                | Ok m2 =>
                    let hm := download p (snd (read tails_stream))
                                (fst (read tails_stream)) Hash.new m2 in
                    if bool_decide
                         (Some (Hash.b58encode (Hash.digest (fst hm)))
                          = tails_hash self)
                    then
                      (Ok (PosixPath p),
                       mkState
                         (set_tails_local_path (Some (PosixPath p)) self)
                         (world (asked uri (snd hm) st)))
                    else (Raise HashMismatch, asked uri (snd hm) st)
                end
            end
        end
    end.
Proof.
  destruct st as [self [m rem log]].
  unfold retrieve_tails, asked, MissingPublicLocation, FetchFailure,
    HashMismatch.
  unfold mbind, M_bind, try_except, fetch_stream, lift, with_fs, update_fs,
    download_to, raise, update_self, mret, M_ret, get_self.
  cbv beta iota zeta delta [self_ world fs remote fetched fst snd].
  destruct (truthy_str (tails_public_uri self)); cbn [negb]; [|reflexivity].
  destruct (rem !! default ""%string (tails_public_uri self)) as [body|];
    [|reflexivity].
  destruct (get_receiving_tails_local_path tmp self context) as [r|e];
    [|reflexivity].
  destruct (Fs.exists_ m (PurePath.parent (Path r))); cbn [negb].
  - destruct (Fs.open_wb (Path r) m) as [m2|e]; [|reflexivity].
    destruct (read body) as [buf rest].
    destruct (download (Path r) rest buf Hash.new m2) as [h m3].
    destruct (bool_decide _); reflexivity.
  - destruct (Fs.mkdir_parents (PurePath.parent (Path r)) m) as [m1|e];
      [|reflexivity].
    destruct (Fs.open_wb (Path r) m1) as [m2|e]; [|reflexivity].
    destruct (read body) as [buf rest].
    destruct (download (Path r) rest buf Hash.new m2) as [h m3].
    destruct (bool_decide _); reflexivity.
Qed.

(** An outcome is its result and the state it leaves. *)
Lemma outcome_of_result {A} (o : result A * State) (r : result A) :
  fst o = r -> o = (r, snd o).
Proof. destruct o as [r' st']. cbn. now intros ->. Qed.

Lemma get_or_fetch_unfold (tmp : string) (context : InjectionContext)
  (st : State) :
  get_or_fetch_local_tails_path tmp context st =
  match get_receiving_tails_local_path tmp (self_ st) context with
  | Raise e => (Raise e, st)
  | Ok receiving =>
      if Fs.is_file (fs (world st)) (Path receiving) then (Ok receiving, st)
      else retrieve_tails tmp context st
  end.
Proof.
  unfold get_or_fetch_local_tails_path, mbind, M_bind, get_self, lift,
    with_fs, mret, M_ret.
  destruct (get_receiving_tails_local_path tmp (self_ st) context);
    [|reflexivity].
  destruct (Fs.is_file (fs (world st)) (Path a)); reflexivity.
Qed.

(** Which exceptions the steps can raise. *)
Lemma get_receiving_raises (tmp : string) (self : RevocationRegistry)
  (context : InjectionContext) (e : exn) :
  get_receiving_tails_local_path tmp self context = Raise e -> e = TypeError.
Proof.
  unfold get_receiving_tails_local_path.
  destruct (truthy_path (tails_local_path self)).
  - destruct (tails_local_path self); congruence.
  - destruct (tails_hash self); congruence.
Qed.

Lemma makedirs_raises (ps : list PurePath.t) :
  forall (m : gmap PurePath.t node) (e : exn),
    Fs.makedirs ps m = Raise e -> exists k, e = OSError k.
Proof.
  induction ps as [|p ps IH]; intros m e H; cbn [Fs.makedirs] in H.
  - discriminate.
  - destruct (m !! p) as [[c|]|]; eauto.
    injection H as <-. eauto.
Qed.

Lemma create_raises (p : PurePath.t) (m : gmap PurePath.t node) (e : exn) :
  (if negb (Fs.exists_ m (PurePath.parent p))
   then Fs.mkdir_parents (PurePath.parent p) m else Ok m) = Raise e ->
  exists k, e = OSError k.
Proof.
  destruct (negb _); [|discriminate].
  unfold Fs.mkdir_parents.
  destruct (Fs.stat m (PurePath.parent p)).
  - intros H. injection H as <-. eauto.
  - apply makedirs_raises.
Qed.

Lemma open_wb_raises (p : PurePath.t) (m : gmap PurePath.t node) (e : exn) :
  Fs.open_wb p m = Raise e -> exists k, e = OSError k.
Proof.
  unfold Fs.open_wb. intros H.
  destruct (Fs.stat m p) as [[c|]|];
    try (injection H as <-; eauto);
    destruct (Fs.stat m (PurePath.parent p)) as [[c'|]|];
    try discriminate; injection H as <-; eauto.
Qed.

(** An opened file is empty and has a name. *)
Lemma open_wb_inv (p : PurePath.t) (m m2 : gmap PurePath.t node) :
  Fs.open_wb p m = Ok m2 ->
  m2 = <[p := File []]> m /\ PurePath.parts p <> [].
Proof.
  unfold Fs.open_wb. intros H.
  assert (Hparts : Fs.stat m p <> Some Dir -> PurePath.parts p <> []).
  { unfold Fs.stat. destruct (PurePath.parts p); congruence. }
  destruct (Fs.stat m p) as [[c|]|]; try discriminate;
    destruct (Fs.stat m (PurePath.parent p)) as [[c'|]|];
    try discriminate; injection H as <-;
    (split; [reflexivity | apply Hparts; congruence]).
Qed.

Lemma is_file_lookup (m : gmap PurePath.t node) (p : PurePath.t)
  (data : bytes) :
  PurePath.parts p <> [] -> m !! p = Some (File data) ->
  Fs.is_file m p = true.
Proof.
  intros Hp Hm. unfold Fs.is_file.
  now rewrite (FsFacts.stat_lookup m p Hp), Hm.
Qed.

(** What the download leaves behind once the file is open. *)
Lemma download_opened (p : PurePath.t) (tails_stream : stream)
  (m1 : gmap PurePath.t node) :
  download p (snd (read tails_stream)) (fst (read tails_stream)) Hash.new
    (<[p := File []]> m1)
  = (content tails_stream, <[p := File (content tails_stream)]> m1).
Proof.
  rewrite (download_spec p _ _ _ _ []) by apply lookup_insert_eq.
  rewrite content_read, insert_insert_eq. reflexivity.
Qed.

Lemma truthy_str_Some (uri : string) :
  uri <> ""%string -> truthy_str (Some uri) = true.
Proof.
  intros H. unfold truthy_str.
  now destruct (String.eqb_spec uri "").
Qed.

Lemma truthy_str_inv (x : option string) :
  truthy_str x = true -> exists uri, x = Some uri /\ uri <> ""%string.
Proof.
  destruct x as [uri|]; [|discriminate]. unfold truthy_str.
  destruct (String.eqb_spec uri ""); [discriminate|]. eauto.
Qed.

(** A run of [retrieve_tails] that reaches the hash check: the transport
    has the address, and the file system lets the file be made. *)
Lemma retrieve_tails_runs (tmp : string) (context : InjectionContext)
  (st : State) (uri : string) (tails_stream : stream) (receiving : pathlike) :
  tails_public_uri (self_ st) = Some uri ->
  uri <> ""%string ->
  remote (world st) !! uri = Some tails_stream ->
  get_receiving_tails_local_path tmp (self_ st) context = Ok receiving ->
  Fs.can_create (fs (world st)) (Path receiving) = true ->
  exists m' : gmap PurePath.t node,
    m' !! Path receiving = Some (File (content tails_stream))
    /\ PurePath.parts (Path receiving) <> []
    /\ retrieve_tails tmp context st =
       if bool_decide (Some (tails_digest (content tails_stream))
                       = tails_hash (self_ st))
       then (Ok (PosixPath (Path receiving)),
             mkState (set_tails_local_path
                        (Some (PosixPath (Path receiving))) (self_ st))
                     (world (asked uri m' st)))
       else (Raise HashMismatch, asked uri m' st).
Proof.
  intros Huri Hne Hremote Hrecv Hcan.
  destruct (FsFacts.create_ok _ _ Hcan) as (m1 & Hmk & Hopen & Hparts).
  exists (<[Path receiving := File (content tails_stream)]> m1).
  split; [apply lookup_insert_eq|]. split; [exact Hparts|].
  rewrite retrieve_tails_unfold. cbv zeta.
  rewrite Huri, (truthy_str_Some uri Hne). cbn [negb from_option Datatypes.id].
  rewrite Hremote, Hrecv, Hmk, Hopen, download_opened.
  reflexivity.
Qed.

(* ===================================================================== *)
(** * Construction from a definition *)
(* ===================================================================== *)

(** The pattern applied to a credential definition id, as
    [from_definition] does. *)
Lemma from_definition_complete (d : RevocRegDef) (public_def : bool) :
  complete d = true ->
  exists reg_id cdi rdt tg loc mcn th,
    d = mkRevocRegDef (Some reg_id) (Some cdi) (Some rdt) (Some tg)
          (Some (mkRevocRegDefValue (Some loc) (Some mcn) (Some th)))
    /\ from_definition d public_def =
       Ok (mkRevocationRegistry
             (Some cdi)
             (match Re.match_ issuer_did_pattern cdi with
              | Some m => Re.group1 m
              | None => None
              end)
             (Some mcn) (Some rdt) (Some reg_id) (Some tg)
             (if public_def then None else Some (Str loc))
             (if public_def then Some loc else None)
             (Some th) (Some d)).
Proof.
  destruct d as [[i|] [c|] [t|] [g|] [[[loc|] [n|] [h|]]|]];
    try discriminate.
  intros _. exists i, c, t, g, loc, n, h. split; reflexivity.
Qed.

(** C7: a definition built as public has its [tailsLocation] as
    [tails_public_uri] and no [tails_local_path]; built as local it has
    the location as [tails_local_path] and no [tails_public_uri]; either
    way exactly one of the two attributes holds a value. *)
Theorem from_definition_location (d : RevocRegDef) (public_def : bool) :
  complete d = true ->
  exists reg loc,
    from_definition d public_def = Ok reg
    /\ tails_location_of d = Some loc
    /\ (public_def = true ->
        tails_public_uri reg = Some loc /\ tails_local_path reg = None)
    /\ (public_def = false ->
        tails_local_path reg = Some (Str loc) /\ tails_public_uri reg = None)
    /\ (tails_local_path reg = None <-> tails_public_uri reg <> None).
Proof.
  intros Hd.
  destruct (from_definition_complete d public_def Hd)
    as (i & c & t & g & loc & n & h & -> & ->).
  eexists _, loc. split; [reflexivity|]. split; [reflexivity|].
  cbn [tails_public_uri tails_local_path].
  destruct public_def; repeat split; intros; congruence.
Qed.

Lemma from_definition_location_witness :
  exists reg,
    from_definition (Sample.definition Sample.abc_uri) true = Ok reg
    /\ tails_public_uri reg = Some Sample.abc_uri
    /\ tails_local_path reg = None.
Proof.
  destruct (from_definition_location
              (Sample.definition Sample.abc_uri) true eq_refl)
    as (reg & loc & Hreg & Hloc & Hpublic & _).
  exists reg. injection Hloc as <-.
  destruct (Hpublic eq_refl) as [Huri Hpath]. auto.
Defined.

(** C8: [issuer_did] is the component of [credDefId] in front of the
    marker [:3:CL:].  When the id is a colon-free component followed by
    the marker, that component is the issuer; whatever [issuer_did] comes
    out is colon-free and stands right before a marker, at the start of
    the id or after a colon; a marker on the first line of the id always
    yields an issuer; and when the id has no marker, or the pattern does
    not match, [issuer_did] is [None] and the registry is built all the
    same. *)
Theorem from_definition_issuer_did (d : RevocRegDef) (public_def : bool) :
  complete d = true ->
  exists reg cdi,
    credDefId d = Some cdi
    /\ from_definition d public_def = Ok reg
    /\ cred_def_id reg = Some cdi
    /\ (forall did rest,
          Re.lacks ":" did = true ->
          cdi = did +:+ ":3:CL:" +:+ rest ->
          issuer_did reg = Some did)
    /\ (forall did,
          issuer_did reg = Some did ->
          Re.lacks ":" did = true
          /\ exists pre rest,
               cdi = pre +:+ did +:+ ":3:CL:" +:+ rest
               /\ (pre = ""%string \/ exists pre', pre = pre' +:+ ":"))
    /\ (forall pre rest,
          cdi = pre +:+ ":3:CL:" +:+ rest ->
          Re.lacks Re.newline pre = true ->
          issuer_did reg <> None)
    /\ ((forall pre rest, cdi <> pre +:+ ":3:CL:" +:+ rest) ->
        issuer_did reg = None)
    /\ (Re.match_ issuer_did_pattern cdi = None -> issuer_did reg = None).
Proof.
  intros Hd.
  destruct (from_definition_complete d public_def Hd)
    as (i & c & t & g & loc & n & h & -> & ->).
  eexists _, c. split; [reflexivity|]. split; [reflexivity|].
  split; [reflexivity|].
  cbn [issuer_did].
  assert (Hsound : forall did,
            match Re.match_ issuer_did_pattern c with
            | Some m => Re.group1 m
            | None => None
            end = Some did ->
            Re.lacks ":" did = true
            /\ exists pre rest,
                 c = pre +:+ did +:+ ":3:CL:" +:+ rest
                 /\ (pre = ""%string \/ exists pre', pre = pre' +:+ ":")).
  { intros did H.
    destruct (Re.match_ issuer_did_pattern c) as [m|] eqn:Hm; [|discriminate].
    apply ReFacts.match_inv in Hm as (pre & d0 & post & Hc & Hd0 & -> & Hpre).
    cbn [Re.group1] in H. injection H as <-.
    split; [exact Hd0|]. now exists pre, post. }
  repeat split.
  - intros did rest Hdid ->.
    now rewrite (ReFacts.match_component did rest Hdid).
  - now apply Hsound.
  - now apply Hsound.
  - intros pre rest -> Hpre.
    destruct (ReFacts.match_marker pre rest Hpre) as [d0 ->]. discriminate.
  - intros Hno.
    destruct (match Re.match_ issuer_did_pattern c with
              | Some m => Re.group1 m
              | None => None
              end) as [did|] eqn:Hres; [|reflexivity].
    exfalso. destruct (Hsound did eq_refl) as (_ & pre & rest & Hc & _).
    apply (Hno (pre +:+ did) rest). now rewrite append_assoc.
  - now intros ->.
Qed.

Lemma from_definition_issuer_did_witness :
  exists reg,
    from_definition (Sample.definition Sample.abc_uri) false = Ok reg
    /\ issuer_did reg = Some "WgWxqztrNooG92RXvxSTWv"%string.
Proof.
  destruct (from_definition_issuer_did
              (Sample.definition Sample.abc_uri) false eq_refl)
    as (reg & cdi & Hcdi & Hreg & _ & Hissuer & _).
  exists reg. split; [exact Hreg|].
  injection Hcdi as <-.
  now apply (Hissuer "WgWxqztrNooG92RXvxSTWv"%string "20:tag"%string).
Defined.

(* ===================================================================== *)
(** * The local path *)
(* ===================================================================== *)

(** C4: the path is a function of the registry and the settings alone.
    A [tails_local_path] that is set (not [None], not empty) is returned
    as it is, whatever the hash, the settings and the temporary
    directory; otherwise the result is the configured directory joined
    with [tails_hash], the directory being
    [<gettempdir>/indy/revocation/tails_files] when the settings have
    none.  Run as a step of a method it leaves the state as it found
    it. *)
Theorem get_receiving_tails_local_path_resolves
  (tmp : string) (self : RevocationRegistry) (context : InjectionContext) :
  (forall local_path,
     tails_local_path self = Some local_path ->
     truthy_path (Some local_path) = true ->
     get_receiving_tails_local_path tmp self context = Ok local_path)
  /\ (forall h dir,
        truthy_path (tails_local_path self) = false ->
        tails_hash self = Some h ->
        settings context !! "holder.revocation.tails_files.path"%string
          = Some dir ->
        get_receiving_tails_local_path tmp self context
        = Ok (Str (PurePath.str
                     (PurePath.joinpath (PurePath.parse dir) h))))
  /\ (forall h,
        truthy_path (tails_local_path self) = false ->
        tails_hash self = Some h ->
        settings context !! "holder.revocation.tails_files.path"%string
          = None ->
        get_receiving_tails_local_path tmp self context
        = Ok (Str (PurePath.str
                     (PurePath.joinpath
                        (PurePath.of_segments
                           [tmp; "indy"; "revocation"; "tails_files"]%string)
                        h))))
  /\ (forall st : State,
        lift (get_receiving_tails_local_path tmp self context) st
        = (get_receiving_tails_local_path tmp self context, st)).
Proof.
  unfold get_receiving_tails_local_path, settings_get.
  repeat split.
  - intros local_path Hp Ht. rewrite Hp, Ht. reflexivity.
  - intros h dir Ht Hh Hdir. now rewrite Ht, Hh, Hdir.
  - intros h Ht Hh Hdir. now rewrite Ht, Hh, Hdir.
Qed.

Lemma get_receiving_tails_local_path_resolves_witness :
  get_receiving_tails_local_path "/tmp" Sample.local Sample.cache
  = Ok (Str "/var/tails/abc")
  /\ get_receiving_tails_local_path "/tmp" Sample.public Sample.cache
     = Ok (Str "/cache/DYu3G8aGTMBW1WrTw76zxQJQU4DHLw9MLyy7peG4LKkY")
  /\ get_receiving_tails_local_path "/tmp" Sample.public Sample.no_settings
     = Ok (Str ("/tmp/indy/revocation/tails_files/"
                +:+ "DYu3G8aGTMBW1WrTw76zxQJQU4DHLw9MLyy7peG4LKkY")).
Proof.
  split; [|split].
  - apply (proj1 (get_receiving_tails_local_path_resolves
                    "/tmp" Sample.local Sample.cache)); reflexivity.
  - apply (proj1 (proj2 (get_receiving_tails_local_path_resolves
                           "/tmp" Sample.public Sample.cache))
             Sample.abc_hash "/cache"%string); reflexivity.
  - apply (proj1 (proj2 (proj2 (get_receiving_tails_local_path_resolves
                                  "/tmp" Sample.public Sample.no_settings)))
             Sample.abc_hash); reflexivity.
Defined.

(* ===================================================================== *)
(** * Retrieval *)
(* ===================================================================== *)

(** C9: without a public URI ([None] or the empty string)
    [retrieve_tails] raises [MissingPublicLocation]; the registry, the
    file system and the record of transport calls are as before. *)
Theorem retrieve_tails_missing_uri (tmp : string)
  (context : InjectionContext) (st : State) :
  truthy_str (tails_public_uri (self_ st)) = false ->
  retrieve_tails tmp context st = (Raise MissingPublicLocation, st).
Proof.
  intros H. rewrite retrieve_tails_unfold. cbv zeta. now rewrite H.
Qed.

Lemma retrieve_tails_missing_uri_witness :
  retrieve_tails "/tmp" Sample.cache Sample.offline
  = (Raise MissingPublicLocation, Sample.offline).
Proof.
  apply (retrieve_tails_missing_uri "/tmp" Sample.cache Sample.offline).
  reflexivity.
Defined.

(** A file found at the resolved path is returned at once. *)
Lemma get_or_fetch_hit (tmp : string) (context : InjectionContext)
  (st : State) (receiving : pathlike) :
  get_receiving_tails_local_path tmp (self_ st) context = Ok receiving ->
  Fs.is_file (fs (world st)) (Path receiving) = true ->
  get_or_fetch_local_tails_path tmp context st = (Ok receiving, st).
Proof.
  intros Hrecv Hfile. rewrite get_or_fetch_unfold. now rewrite Hrecv, Hfile.
Qed.

(** C10: when a file is at the resolved path, [get_or_fetch] returns
    that path and changes nothing: the registry keeps all its attributes,
    so a [tails_local_path] that was [None] is still [None] although the
    file is there. *)
Theorem get_or_fetch_cache_hit (tmp : string) (context : InjectionContext)
  (st : State) (receiving : pathlike) :
  get_receiving_tails_local_path tmp (self_ st) context = Ok receiving ->
  Fs.is_file (fs (world st)) (Path receiving) = true ->
  get_or_fetch_local_tails_path tmp context st = (Ok receiving, st)
  /\ (tails_local_path (self_ st) = None ->
      tails_local_path
        (self_ (snd (get_or_fetch_local_tails_path tmp context st))) = None).
Proof.
  intros Hrecv Hfile.
  rewrite (get_or_fetch_hit tmp context st receiving Hrecv Hfile).
  split; [reflexivity | trivial].
Qed.

Lemma get_or_fetch_cache_hit_witness :
  get_or_fetch_local_tails_path "/tmp" Sample.cache Sample.stale
  = (Ok (Str "/cache/DYu3G8aGTMBW1WrTw76zxQJQU4DHLw9MLyy7peG4LKkY"),
     Sample.stale)
  /\ (tails_local_path (self_ Sample.stale) = None ->
      tails_local_path
        (self_ (snd (get_or_fetch_local_tails_path "/tmp" Sample.cache
                       Sample.stale))) = None).
Proof.
  apply (get_or_fetch_cache_hit "/tmp" Sample.cache Sample.stale);
    vm_compute; reflexivity.
Defined.

(** C1: when the registry has a public URI, the transport delivers a
    stream whose content hashes to [tails_hash], and the file system lets
    the file be made, [retrieve_tails] returns the resolved path, the
    file there holds exactly the content of the stream, and
    [tails_local_path] is that path. *)
Theorem retrieve_tails_round_trip (tmp : string) (context : InjectionContext)
  (st : State) (uri : string) (tails_stream : stream) (receiving : pathlike) :
  tails_public_uri (self_ st) = Some uri ->
  uri <> ""%string ->
  remote (world st) !! uri = Some tails_stream ->
  tails_hash (self_ st) = Some (tails_digest (content tails_stream)) ->
  get_receiving_tails_local_path tmp (self_ st) context = Ok receiving ->
  Fs.can_create (fs (world st)) (Path receiving) = true ->
  exists st',
    retrieve_tails tmp context st = (Ok (PosixPath (Path receiving)), st')
    /\ fs (world st') !! Path receiving = Some (File (content tails_stream))
    /\ tails_local_path (self_ st') = Some (PosixPath (Path receiving)).
Proof.
  intros Huri Hne Hremote Hhash Hrecv Hcan.
  destruct (retrieve_tails_runs tmp context st uri tails_stream receiving
              Huri Hne Hremote Hrecv Hcan) as (m' & Hfile & _ & Hrun).
  rewrite bool_decide_eq_true_2 in Hrun by now rewrite Hhash.
  eexists. split; [exact Hrun|]. split; [exact Hfile | reflexivity].
Qed.

Lemma retrieve_tails_round_trip_witness :
  exists st',
    retrieve_tails "/tmp" Sample.cache Sample.fresh
    = (Ok (PosixPath Sample.cached_abc), st')
    /\ fs (world st') !! Sample.cached_abc
       = Some (File (bytes_of_string "abc"))
    /\ tails_local_path (self_ st') = Some (PosixPath Sample.cached_abc).
Proof.
  apply (retrieve_tails_round_trip "/tmp" Sample.cache Sample.fresh
           Sample.abc_uri Sample.abc
           (Str "/cache/DYu3G8aGTMBW1WrTw76zxQJQU4DHLw9MLyy7peG4LKkY"));
    [ reflexivity | discriminate | vm_compute; reflexivity
    | vm_compute; reflexivity | vm_compute; reflexivity
    | vm_compute; reflexivity ].
Defined.

(** A failed [retrieve_tails] leaves the registry as it was. *)
Lemma retrieve_tails_failure (tmp : string) (context : InjectionContext)
  (st st' : State) (e : exn) :
  retrieve_tails tmp context st = (Raise e, st') -> self_ st' = self_ st.
Proof.
  rewrite retrieve_tails_unfold. cbv zeta.
  repeat match goal with
         | |- context [if ?b then _ else _] => destruct b
         | |- context [match ?x with _ => _ end] => destruct x
         end;
    intros H; try discriminate; now injection H as _ <-.
Qed.

Lemma get_or_fetch_failure (tmp : string) (context : InjectionContext)
  (st st' : State) (e : exn) :
  get_or_fetch_local_tails_path tmp context st = (Raise e, st') ->
  self_ st' = self_ st.
Proof.
  rewrite get_or_fetch_unfold.
  destruct (get_receiving_tails_local_path tmp (self_ st) context) as [r|e'].
  - destruct (Fs.is_file (fs (world st)) (Path r)); [discriminate|].
    apply retrieve_tails_failure.
  - intros H. now injection H as _ <-.
Qed.

(** C2: a stream whose content does not hash to [tails_hash] makes
    [retrieve_tails] raise [HashMismatch]; and whenever [retrieve_tails]
    or [get_or_fetch] raises, [tails_local_path] is what it was ([None] if
    it was [None]). *)
Theorem retrieve_tails_hash_mismatch :
  (forall tmp context st uri tails_stream receiving,
     tails_public_uri (self_ st) = Some uri ->
     uri <> ""%string ->
     remote (world st) !! uri = Some tails_stream ->
     tails_hash (self_ st) <> Some (tails_digest (content tails_stream)) ->
     get_receiving_tails_local_path tmp (self_ st) context = Ok receiving ->
     Fs.can_create (fs (world st)) (Path receiving) = true ->
     exists st',
       retrieve_tails tmp context st = (Raise HashMismatch, st')
       /\ tails_local_path (self_ st') = tails_local_path (self_ st))
  /\ (forall tmp context st st' e,
        retrieve_tails tmp context st = (Raise e, st') ->
        tails_local_path (self_ st') = tails_local_path (self_ st))
  /\ (forall tmp context st st' e,
        get_or_fetch_local_tails_path tmp context st = (Raise e, st') ->
        tails_local_path (self_ st') = tails_local_path (self_ st)).
Proof.
  split; [|split].
  - intros tmp context st uri tails_stream receiving
      Huri Hne Hremote Hhash Hrecv Hcan.
    destruct (retrieve_tails_runs tmp context st uri tails_stream receiving
                Huri Hne Hremote Hrecv Hcan) as (m' & _ & _ & Hrun).
    rewrite bool_decide_eq_false_2 in Hrun by congruence.
    eexists. split; [exact Hrun | reflexivity].
  - intros tmp context st st' e H.
    now rewrite (retrieve_tails_failure tmp context st st' e H).
  - intros tmp context st st' e H.
    now rewrite (get_or_fetch_failure tmp context st st' e H).
Qed.

Lemma retrieve_tails_hash_mismatch_witness :
  exists st',
    retrieve_tails "/tmp" Sample.cache Sample.fooled
    = (Raise HashMismatch, st')
    /\ tails_local_path (self_ st') = None.
Proof.
  apply (proj1 retrieve_tails_hash_mismatch "/tmp" Sample.cache
           Sample.fooled Sample.abc_uri [bytes_of_string "abd"]
           (Str "/cache/DYu3G8aGTMBW1WrTw76zxQJQU4DHLw9MLyy7peG4LKkY"));
    [ reflexivity | discriminate | vm_compute; reflexivity
    | vm_compute; discriminate | vm_compute; reflexivity
    | vm_compute; reflexivity ].
Defined.

(** C5: when [retrieve_tails] raises [HashMismatch] the file it wrote is
    still there: the resolved path holds the whole content of the stream,
    which does not hash to [tails_hash], and the next [get_or_fetch]
    returns that path on the strength of the file being there, without a
    call to the transport. *)
Theorem hash_mismatch_leaves_file (tmp : string) (context : InjectionContext)
  (st st' : State) :
  retrieve_tails tmp context st = (Raise HashMismatch, st') ->
  exists receiving uri tails_stream,
    get_receiving_tails_local_path tmp (self_ st) context = Ok receiving
    /\ tails_public_uri (self_ st) = Some uri
    /\ remote (world st) !! uri = Some tails_stream
    /\ fs (world st') !! Path receiving = Some (File (content tails_stream))
    /\ tails_hash (self_ st) <> Some (tails_digest (content tails_stream))
    /\ self_ st' = self_ st
    /\ get_or_fetch_local_tails_path tmp context st' = (Ok receiving, st').
Proof.
  rewrite retrieve_tails_unfold. cbv zeta. unfold HashMismatch.
  destruct (truthy_str (tails_public_uri (self_ st))) eqn:Ht; cbn [negb];
    [|discriminate].
  apply truthy_str_inv in Ht as (uri & Huri & Hne).
  rewrite Huri. cbn [from_option Datatypes.id].
  destruct (remote (world st) !! uri) as [tails_stream|] eqn:Hremote;
    [|discriminate].
  destruct (get_receiving_tails_local_path tmp (self_ st) context)
    as [receiving|e] eqn:Hrecv.
  2:{ apply get_receiving_raises in Hrecv as ->. discriminate. }
  destruct (if negb _ then _ else _) as [m1|e] eqn:Hmk.
  2:{ apply create_raises in Hmk as [k ->]. discriminate. }
  destruct (Fs.open_wb (Path receiving) m1) as [m2|e] eqn:Hopen.
  2:{ apply open_wb_raises in Hopen as [k ->]. discriminate. }
  apply open_wb_inv in Hopen as [-> Hparts].
  rewrite download_opened. cbn [fst snd].
  destruct (bool_decide _) eqn:Hdec; [discriminate|].
  apply bool_decide_eq_false_1 in Hdec.
  intros H. injection H as <-.
  exists receiving, uri, tails_stream.
  assert (Hfile : fs (world (asked uri
                    (<[Path receiving := File (content tails_stream)]> m1) st))
                  !! Path receiving = Some (File (content tails_stream)))
    by apply lookup_insert_eq.
  repeat split; auto.
  apply get_or_fetch_hit; [exact Hrecv|].
  now apply (is_file_lookup _ _ _ Hparts Hfile).
Qed.

Lemma hash_mismatch_leaves_file_witness :
  exists receiving uri tails_stream,
    get_receiving_tails_local_path "/tmp" (self_ Sample.fooled) Sample.cache
    = Ok receiving
    /\ tails_public_uri (self_ Sample.fooled) = Some uri
    /\ remote (world Sample.fooled) !! uri = Some tails_stream
    /\ fs (world (snd (retrieve_tails "/tmp" Sample.cache Sample.fooled)))
         !! Path receiving
       = Some (File (content tails_stream))
    /\ tails_hash (self_ Sample.fooled)
       <> Some (tails_digest (content tails_stream))
    /\ self_ (snd (retrieve_tails "/tmp" Sample.cache Sample.fooled))
       = self_ Sample.fooled
    /\ get_or_fetch_local_tails_path "/tmp" Sample.cache
         (snd (retrieve_tails "/tmp" Sample.cache Sample.fooled))
       = (Ok receiving,
          snd (retrieve_tails "/tmp" Sample.cache Sample.fooled)).
Proof.
  apply (hash_mismatch_leaves_file "/tmp" Sample.cache Sample.fooled).
  apply outcome_of_result. vm_compute. reflexivity.
Defined.

(** C3, as the code has it: with a public URI that the transport can
    open, no file at the resolved path and a file system that lets the
    file be made, two calls of [get_or_fetch] in a row ask the transport
    once, in the first call; the second call returns the resolved path and
    changes nothing.  And a file that is there already is returned at
    once, whatever it holds. *)
Theorem get_or_fetch_twice :
  (forall tmp context st uri tails_stream receiving,
     tails_public_uri (self_ st) = Some uri ->
     uri <> ""%string ->
     remote (world st) !! uri = Some tails_stream ->
     get_receiving_tails_local_path tmp (self_ st) context = Ok receiving ->
     Fs.is_file (fs (world st)) (Path receiving) = false ->
     Fs.can_create (fs (world st)) (Path receiving) = true ->
     exists first st1 cached,
       get_or_fetch_local_tails_path tmp context st = (first, st1)
       /\ fetched (world st1) = fetched (world st) ++ [uri]
       /\ get_or_fetch_local_tails_path tmp context st1 = (Ok cached, st1)
       /\ Path cached = Path receiving)
  /\ (forall tmp context st receiving,
        get_receiving_tails_local_path tmp (self_ st) context = Ok receiving ->
        Fs.is_file (fs (world st)) (Path receiving) = true ->
        get_or_fetch_local_tails_path tmp context st = (Ok receiving, st)).
Proof.
  split; [|apply get_or_fetch_hit].
  intros tmp context st uri tails_stream receiving
    Huri Hne Hremote Hrecv Hnone Hcan.
  destruct (retrieve_tails_runs tmp context st uri tails_stream receiving
              Huri Hne Hremote Hrecv Hcan) as (m' & Hfile & Hparts & Hrun).
  rewrite get_or_fetch_unfold, Hrecv, Hnone, Hrun.
  destruct (bool_decide _).
  - eexists _, _, (PosixPath (Path receiving)).
    split; [reflexivity|]. split; [reflexivity|]. split; [|reflexivity].
    apply get_or_fetch_hit; [reflexivity|].
    now apply (is_file_lookup _ _ _ Hparts Hfile).
  - eexists _, _, receiving.
    split; [reflexivity|]. split; [reflexivity|]. split; [|reflexivity].
    apply get_or_fetch_hit; [exact Hrecv|].
    now apply (is_file_lookup _ _ _ Hparts Hfile).
Qed.

Lemma get_or_fetch_twice_witness :
  exists first st1 cached,
    get_or_fetch_local_tails_path "/tmp" Sample.cache Sample.fresh
    = (first, st1)
    /\ fetched (world st1) = fetched (world Sample.fresh) ++ [Sample.abc_uri]
    /\ get_or_fetch_local_tails_path "/tmp" Sample.cache st1
       = (Ok cached, st1)
    /\ Path cached = Sample.cached_abc.
Proof.
  apply (proj1 get_or_fetch_twice "/tmp" Sample.cache Sample.fresh
           Sample.abc_uri Sample.abc
           (Str "/cache/DYu3G8aGTMBW1WrTw76zxQJQU4DHLw9MLyy7peG4LKkY"));
    [ reflexivity | discriminate | vm_compute; reflexivity
    | vm_compute; reflexivity | vm_compute; reflexivity
    | vm_compute; reflexivity ].
Defined.

(** C3, as it is written, fails for a registry built from a local
    definition whose file is missing: there is no file at the resolved
    path, both calls raise [MissingPublicLocation], and the transport is
    never asked. *)
Lemma get_or_fetch_twice_without_uri :
  Fs.is_file (fs (world Sample.offline)) (PurePath.parse "/var/tails/abc")
  = false
  /\ get_receiving_tails_local_path "/tmp" (self_ Sample.offline)
       Sample.cache = Ok (Str "/var/tails/abc")
  /\ get_or_fetch_local_tails_path "/tmp" Sample.cache Sample.offline
     = (Raise MissingPublicLocation, Sample.offline)
  /\ get_or_fetch_local_tails_path "/tmp" Sample.cache
       (snd (get_or_fetch_local_tails_path "/tmp" Sample.cache
               Sample.offline))
     = (Raise MissingPublicLocation, Sample.offline)
  /\ fetched
       (world
          (snd (get_or_fetch_local_tails_path "/tmp" Sample.cache
                  (snd (get_or_fetch_local_tails_path "/tmp" Sample.cache
                          Sample.offline)))))
     = [].
Proof. vm_compute. repeat split; reflexivity. Qed.

(** C6, as the code has it: the file is opened with mode [wb].  When
    the resolved path already holds a file the open step goes through,
    what the file held is dropped, and after the call the file holds the
    content of the stream (the call then returns the path, or raises
    [HashMismatch] when the content does not hash to [tails_hash]). *)
Theorem retrieve_tails_overwrites (tmp : string) (context : InjectionContext)
  (st : State) (uri : string) (tails_stream : stream) (receiving : pathlike)
  (old : bytes) :
  tails_public_uri (self_ st) = Some uri ->
  uri <> ""%string ->
  remote (world st) !! uri = Some tails_stream ->
  get_receiving_tails_local_path tmp (self_ st) context = Ok receiving ->
  fs (world st) !! Path receiving = Some (File old) ->
  Fs.can_create (fs (world st)) (Path receiving) = true ->
  exists res st',
    retrieve_tails tmp context st = (res, st')
    /\ (res = Ok (PosixPath (Path receiving)) \/ res = Raise HashMismatch)
    /\ fs (world st') !! Path receiving = Some (File (content tails_stream)).
Proof.
  intros Huri Hne Hremote Hrecv _ Hcan.
  destruct (retrieve_tails_runs tmp context st uri tails_stream receiving
              Huri Hne Hremote Hrecv Hcan) as (m' & Hfile & _ & Hrun).
  rewrite Hrun.
  destruct (bool_decide _); eexists _, _;
    (split; [reflexivity|]); (split; [|exact Hfile]); auto.
Qed.

Lemma retrieve_tails_overwrites_witness :
  exists res st',
    retrieve_tails "/tmp" Sample.cache Sample.stale = (res, st')
    /\ (res = Ok (PosixPath Sample.cached_abc) \/ res = Raise HashMismatch)
    /\ fs (world st') !! Sample.cached_abc
       = Some (File (bytes_of_string "abc")).
Proof.
  apply (retrieve_tails_overwrites "/tmp" Sample.cache Sample.stale
           Sample.abc_uri Sample.abc
           (Str "/cache/DYu3G8aGTMBW1WrTw76zxQJQU4DHLw9MLyy7peG4LKkY")
           (bytes_of_string "old content"));
    [ reflexivity | discriminate | vm_compute; reflexivity
    | vm_compute; reflexivity | vm_compute; reflexivity
    | vm_compute; reflexivity ].
Defined.

(** C6, as it is written, fails on a cache that already holds a file
    under the name of the tails file: [retrieve_tails] does not stop at
    the open step, it returns the path, and the old content is gone. *)
Lemma retrieve_tails_open_not_exclusive :
  fs (world Sample.stale) !! Sample.cached_abc
  = Some (File (bytes_of_string "old content"))
  /\ fst (retrieve_tails "/tmp" Sample.cache Sample.stale)
     = Ok (PosixPath Sample.cached_abc)
  /\ fs (world (snd (retrieve_tails "/tmp" Sample.cache Sample.stale)))
       !! Sample.cached_abc
     = Some (File (bytes_of_string "abc")).
Proof. vm_compute. repeat split; reflexivity. Qed.

(* ===================================================================== *)
(** * Two more facts about the cache *)
(* ===================================================================== *)

(** A [tails_local_path] that is the empty string counts as not set: the
    path is made from the directory and the hash. *)
Theorem empty_local_path_is_unset (tmp : string) (self : RevocationRegistry)
  (context : InjectionContext) (h : string) :
  tails_local_path self = Some (Str "") ->
  tails_hash self = Some h ->
  get_receiving_tails_local_path tmp self context
  = Ok (Str (PurePath.str
               (PurePath.joinpath
                  (Path (settings_get context
                           "holder.revocation.tails_files.path"
                           (PosixPath
                              (PurePath.of_segments
                                 [tmp; "indy"; "revocation";
                                  "tails_files"]%string))))
                  h))).
Proof.
  intros Hp Hh. unfold get_receiving_tails_local_path.
  now rewrite Hp, Hh.
Qed.

Lemma empty_local_path_is_unset_witness :
  get_receiving_tails_local_path "/tmp"
    (set_tails_local_path (Some (Str "")) Sample.public) Sample.cache
  = Ok (Str "/cache/DYu3G8aGTMBW1WrTw76zxQJQU4DHLw9MLyy7peG4LKkY").
Proof.
  apply (empty_local_path_is_unset "/tmp"
           (set_tails_local_path (Some (Str "")) Sample.public)
           Sample.cache Sample.abc_hash); reflexivity.
Defined.



(* ===================================================================== *)
(** * More on retrieval: how a call ends *)
(* ===================================================================== *)

(** Every call of [retrieve_tails] ends in one of the seven ways, and
    each of them is the end of a call. *)
Lemma retrieve_tails_ends (tmp : string) (context : InjectionContext)
  (st st' : State) (res : result pathlike) :
  retrieve_tails tmp context st = (res, st')
  <-> retrieve_ends tmp context st res st'.
Proof.
  rewrite retrieve_tails_unfold. cbv zeta. split.
  - destruct (truthy_str (tails_public_uri (self_ st))) eqn:Ht; cbn [negb].
    2:{ intros H. injection H as <- <-. now constructor. }
    apply truthy_str_inv in Ht as (uri & Huri & Hne).
    rewrite Huri. cbn [from_option Datatypes.id].
    destruct (remote (world st) !! uri) as [tails_stream|] eqn:Hremote.
    2:{ intros H. injection H as <- <-. now apply ends_no_stream. }
    destruct (get_receiving_tails_local_path tmp (self_ st) context)
      as [receiving|e] eqn:Hrecv.
    2:{ intros H. injection H as <- <-.
        pose proof (get_receiving_raises _ _ _ _ Hrecv) as ->.
        now apply (ends_no_path _ _ _ uri tails_stream). }
    destruct (if negb _ then _ else _) as [m1|e] eqn:Hmk.
    2:{ intros H. injection H as <- <-.
        destruct (create_raises _ _ _ Hmk) as [k ->].
        now apply (ends_no_directory _ _ _ uri tails_stream receiving). }
    destruct (Fs.open_wb (Path receiving) m1) as [m2|e] eqn:Hopen.
    2:{ intros H. injection H as <- <-.
        destruct (open_wb_raises _ _ _ Hopen) as [k ->].
        now apply (ends_not_opened _ _ _ uri tails_stream receiving m1). }
    destruct (open_wb_inv _ _ _ Hopen) as [-> _].
    rewrite download_opened. cbn [fst snd].
    destruct (bool_decide _) eqn:Hdec; intros H; injection H as <- <-.
    + apply bool_decide_eq_true_1 in Hdec.
      now apply (ends_well _ _ _ uri tails_stream receiving m1).
    + apply bool_decide_eq_false_1 in Hdec.
      apply (ends_mismatch _ _ _ uri tails_stream receiving m1); auto.
  - intros [Ht | uri Huri Hne Hremote | uri s Huri Hne Hremote Hrecv
            | uri s r k Huri Hne Hremote Hrecv Hmk
            | uri s r m1 k Huri Hne Hremote Hrecv Hmk Hopen
            | uri s r m1 Huri Hne Hremote Hrecv Hmk Hopen Hhash
            | uri s r m1 Huri Hne Hremote Hrecv Hmk Hopen Hhash].
    + now rewrite Ht.
    + rewrite Huri, (truthy_str_Some uri Hne).
      cbn [negb from_option Datatypes.id].
      now rewrite Hremote.
    + rewrite Huri, (truthy_str_Some uri Hne).
      cbn [negb from_option Datatypes.id].
      now rewrite Hremote, Hrecv.
    + rewrite Huri, (truthy_str_Some uri Hne).
      cbn [negb from_option Datatypes.id].
      rewrite Hremote, Hrecv. unfold make_parent in Hmk. now rewrite Hmk.
    + rewrite Huri, (truthy_str_Some uri Hne).
      cbn [negb from_option Datatypes.id].
      rewrite Hremote, Hrecv. unfold make_parent in Hmk. now rewrite Hmk, Hopen.
    + rewrite Huri, (truthy_str_Some uri Hne).
      cbn [negb from_option Datatypes.id].
      rewrite Hremote, Hrecv. unfold make_parent in Hmk.
      rewrite Hmk, Hopen, download_opened. cbn [fst snd].
      rewrite bool_decide_eq_false_2; [reflexivity|].
      intros Heq. apply Hhash. now rewrite <- Heq.
    + rewrite Huri, (truthy_str_Some uri Hne).
      cbn [negb from_option Datatypes.id].
      rewrite Hremote, Hrecv. unfold make_parent in Hmk.
      rewrite Hmk, Hopen, download_opened. cbn [fst snd].
      rewrite bool_decide_eq_true_2; [reflexivity | now rewrite Hhash].
Qed.

(* ===================================================================== *)
(** * More on construction *)
(* ===================================================================== *)

(** A document is complete when it lacks none of the keys. *)
Lemma first_missing_complete (d : RevocRegDef) :
  first_missing d = None <-> complete d = true.
Proof.
  destruct d as [[i|] [c|] [t|] [g|] [[[loc|] [n|] [h|]]|]];
    vm_compute; split; congruence.
Qed.

(** A document that lacks a key makes [from_definition] raise the
    [KeyError] of the first key, in reading order, that is not there,
    whatever the public flag. *)
Theorem from_definition_missing_key (d : RevocRegDef) (public_def : bool)
  (key : string) :
  first_missing d = Some key ->
  from_definition d public_def = Raise (MalformedDefinition key).
Proof.
  destruct d as [[i|] [c|] [t|] [g|] [[[loc|] [n|] [h|]]|]];
    vm_compute; intros H; try discriminate; injection H as <-; reflexivity.
Qed.

Lemma from_definition_missing_key_witness :
  from_definition
    (mkRevocRegDef (Some Sample.rev_reg_id) None (Some "CL_ACCUM"%string) None
       (Some (mkRevocRegDefValue (Some Sample.abc_uri) None None)))
    true
  = Raise (MalformedDefinition "credDefId").
Proof.
  apply (from_definition_missing_key
           (mkRevocRegDef (Some Sample.rev_reg_id) None
              (Some "CL_ACCUM"%string) None
              (Some (mkRevocRegDefValue (Some Sample.abc_uri) None None)))
           true "credDefId").
  reflexivity.
Defined.

(** Only a complete document gets through. *)
Lemma from_definition_inv (d : RevocRegDef) (public_def : bool)
  (reg : RevocationRegistry) :
  from_definition d public_def = Ok reg -> complete d = true.
Proof.
  destruct d as [[i|] [c|] [t|] [g|] [[[loc|] [n|] [h|]]|]];
    intros H; try reflexivity; discriminate.
Qed.

(** Nothing of the input is lost: the registry keeps the document it was
    built from, and two constructions that give the same registry started
    from the same document and the same flag. *)
Theorem from_definition_injective (d d' : RevocRegDef) (p p' : bool)
  (reg : RevocationRegistry) :
  from_definition d p = Ok reg ->
  from_definition d' p' = Ok reg ->
  reg_def reg = Some d /\ d = d' /\ p = p'.
Proof.
  intros H H'.
  destruct (from_definition_complete d p (from_definition_inv d p reg H))
    as (i & c & t & g & loc & n & h & Hd & Hreg).
  destruct (from_definition_complete d' p' (from_definition_inv d' p' reg H'))
    as (i' & c' & t' & g' & loc' & n' & h' & Hd' & Hreg').
  rewrite Hreg in H. rewrite Hreg' in H'.
  injection H as <-. injection H' as Hc Hiss Hn Ht Hi Hg Hpath Huri Hh Hdoc.
  split; [reflexivity|]. split; [congruence|].
  destruct p, p'; congruence.
Qed.

Lemma from_definition_injective_witness :
  reg_def Sample.public = Some (Sample.definition Sample.abc_uri)
  /\ Sample.definition Sample.abc_uri = Sample.definition Sample.abc_uri
  /\ true = true.
Proof.
  apply (from_definition_injective
           (Sample.definition Sample.abc_uri)
           (Sample.definition Sample.abc_uri) true true Sample.public);
    vm_compute; reflexivity.
Defined.

(* ===================================================================== *)
(** * More on retrieval: what a call touches *)
(* ===================================================================== *)

(** [makedirs] only adds directories, and only among the paths it was
    given. *)
Lemma makedirs_adds (ps : list PurePath.t) :
  forall m m' : gmap PurePath.t node,
    Fs.makedirs ps m = Ok m' ->
    forall q,
      m' !! q = m !! q
      \/ (In q ps /\ m !! q = None /\ m' !! q = Some Dir).
Proof.
  induction ps as [|p ps IH]; intros m m' H q; cbn [Fs.makedirs] in H.
  - injection H as <-. now left.
  - destruct (m !! p) as [[data|]|] eqn:Hp; [discriminate| |].
    + destruct (IH m m' H q) as [Heq | (Hin & Hnone & Hdir)]; [now left|].
      right. repeat split; auto. now right.
    + destruct (IH _ m' H q) as [Heq | (Hin & Hnone & Hdir)].
      * destruct (decide (p = q)) as [<- | Hne].
        -- right. rewrite Heq, lookup_insert_eq. repeat split; auto.
           now left.
        -- left. now rewrite Heq, lookup_insert_ne.
      * destruct (decide (p = q)) as [<- | Hne].
        -- rewrite lookup_insert_eq in Hnone. discriminate.
        -- rewrite lookup_insert_ne in Hnone by exact Hne.
           right. repeat split; auto. now right.
Qed.

Lemma create_adds (p : PurePath.t) (m m1 : gmap PurePath.t node) :
  (if negb (Fs.exists_ m (PurePath.parent p))
   then Fs.mkdir_parents (PurePath.parent p) m else Ok m) = Ok m1 ->
  forall q,
    m1 !! q = m !! q
    \/ (In q (PurePath.lineage (PurePath.parent p))
        /\ m !! q = None /\ m1 !! q = Some Dir).
Proof.
  destruct (negb _).
  - unfold Fs.mkdir_parents.
    destruct (Fs.stat m (PurePath.parent p)); [discriminate|].
    apply makedirs_adds.
  - intros H q. injection H as <-. now left.
Qed.

(** [get_or_fetch] either changes nothing or is a [retrieve_tails]. *)
Lemma get_or_fetch_cases (tmp : string) (context : InjectionContext)
  (st st' : State) (res : result pathlike) :
  get_or_fetch_local_tails_path tmp context st = (res, st') ->
  st' = st \/ retrieve_tails tmp context st = (res, st').
Proof.
  rewrite get_or_fetch_unfold.
  destruct (get_receiving_tails_local_path tmp (self_ st) context) as [r|e].
  - destruct (Fs.is_file (fs (world st)) (Path r)); [|now right].
    intros H. injection H as _ <-. now left.
  - intros H. injection H as _ <-. now left.
Qed.

Lemma retrieve_tails_disk (tmp : string) (context : InjectionContext)
  (st st' : State) (res : result pathlike) :
  retrieve_tails tmp context st = (res, st') ->
  remote (world st') = remote (world st)
  /\ forall q, touched tmp context st st' q.
Proof.
  unfold touched. rewrite retrieve_tails_unfold. cbv zeta.
  destruct (truthy_str (tails_public_uri (self_ st))); cbn [negb];
    [|intros H; injection H as _ <-; split; auto].
  destruct (remote (world st) !! _) as [tails_stream|];
    [|intros H; injection H as _ <-; split; auto].
  destruct (get_receiving_tails_local_path tmp (self_ st) context)
    as [receiving|e]; [|intros H; injection H as _ <-; split; auto].
  destruct (if negb _ then _ else _) as [m1|e] eqn:Hmk;
    [|intros H; injection H as _ <-; split; auto].
  pose proof (create_adds _ _ _ Hmk) as Hm1.
  assert (Hdirs : forall q,
            m1 !! q = fs (world st) !! q
            \/ exists r, Ok receiving = Ok r
                 /\ ((q = Path r /\ exists data, m1 !! q = Some (File data))
                     \/ (In q (PurePath.lineage (PurePath.parent (Path r)))
                         /\ fs (world st) !! q = None
                         /\ m1 !! q = Some Dir))).
  { intros q. destruct (Hm1 q) as [Heq | Hadd]; [now left|].
    right. exists receiving. auto. }
  destruct (Fs.open_wb (Path receiving) m1) as [m2|e] eqn:Hopen;
    [|intros H; injection H as _ <-; split; auto].
  apply open_wb_inv in Hopen as [-> _].
  rewrite download_opened. cbn [fst snd].
  assert (Hfile : forall q,
            <[Path receiving := File (content tails_stream)]> m1 !! q
            = fs (world st) !! q
            \/ exists r, Ok receiving = Ok r
                 /\ ((q = Path r
                      /\ exists data,
                           <[Path receiving := File (content tails_stream)]> m1
                           !! q = Some (File data))
                     \/ (In q (PurePath.lineage (PurePath.parent (Path r)))
                         /\ fs (world st) !! q = None
                         /\ <[Path receiving := File (content tails_stream)]>
                              m1 !! q = Some Dir))).
  { intros q. destruct (decide (Path receiving = q)) as [<- | Hne].
    - right. exists receiving. split; [reflexivity|]. left.
      split; [reflexivity|]. rewrite lookup_insert_eq. eauto.
    - rewrite lookup_insert_ne by exact Hne. apply Hdirs. }
  destruct (bool_decide _); intros H; injection H as _ <-; split; auto.
Qed.

(** On disk a call changes at most the file at the resolved path and
    the directories above it: any other path holds after the call what
    it held before, a directory above is only ever added where nothing
    was, and what the transport serves is not changed. *)
Theorem retrieve_tails_disk_footprint (tmp : string)
  (context : InjectionContext) (st st' : State) (res : result pathlike) :
  retrieve_tails tmp context st = (res, st')
  \/ get_or_fetch_local_tails_path tmp context st = (res, st') ->
  remote (world st') = remote (world st)
  /\ forall q, touched tmp context st st' q.
Proof.
  intros [H | H]; [now apply (retrieve_tails_disk tmp context st st' res)|].
  apply get_or_fetch_cases in H as [-> | H].
  - split; [reflexivity|]. intros q. now left.
  - now apply (retrieve_tails_disk tmp context st st' res).
Qed.

Lemma retrieve_tails_disk_footprint_witness :
  remote (world (snd (retrieve_tails "/tmp" Sample.cache Sample.fresh)))
  = remote (world Sample.fresh)
  /\ forall q,
       touched "/tmp" Sample.cache Sample.fresh
         (snd (retrieve_tails "/tmp" Sample.cache Sample.fresh)) q.
Proof.
  apply (retrieve_tails_disk_footprint "/tmp" Sample.cache Sample.fresh
           (snd (retrieve_tails "/tmp" Sample.cache Sample.fresh))
           (Ok (PosixPath Sample.cached_abc))).
  left. apply outcome_of_result. vm_compute. reflexivity.
Defined.

(** The first test of [retrieve_tails]. *)
Lemma retrieve_tails_missing_uri_step (tmp : string)
  (context : InjectionContext) (st : State) :
  truthy_str (tails_public_uri (self_ st)) = false ->
  retrieve_tails tmp context st = (Raise MissingPublicLocation, st).
Proof. intros H. apply retrieve_tails_ends. now constructor. Qed.

(** The path cannot be made only when there is neither a usable
    [tails_local_path] nor a [tails_hash]. *)
Lemma get_receiving_raises_inv (tmp : string) (self : RevocationRegistry)
  (context : InjectionContext) (e : exn) :
  get_receiving_tails_local_path tmp self context = Raise e ->
  e = TypeError
  /\ truthy_path (tails_local_path self) = false
  /\ tails_hash self = None.
Proof.
  unfold get_receiving_tails_local_path.
  destruct (truthy_path (tails_local_path self)) eqn:Ht.
  - destruct (tails_local_path self); [discriminate|]. discriminate.
  - destruct (tails_hash self); [discriminate|].
    intros H. injection H as <-. auto.
Qed.

(** [retrieve_tails] asks the transport exactly once, for the URI of the
    registry, in every call that gets past the first test, however the
    call ends; [get_or_fetch] asks as [retrieve_tails] does or not at
    all. *)
Theorem transport_asked_once (tmp : string) (context : InjectionContext)
  (st st' : State) (res : result pathlike) :
  (retrieve_tails tmp context st = (res, st') ->
   fetched (world st')
   = fetched (world st)
     ++ (if truthy_str (tails_public_uri (self_ st))
         then [default ""%string (tails_public_uri (self_ st))]
         else []))
  /\ (get_or_fetch_local_tails_path tmp context st = (res, st') ->
      fetched (world st') = fetched (world st)
      \/ exists uri,
           tails_public_uri (self_ st) = Some uri /\ uri <> ""%string
           /\ fetched (world st') = fetched (world st) ++ [uri]).
Proof.
  assert (Hretrieve :
            retrieve_tails tmp context st = (res, st') ->
            fetched (world st')
            = fetched (world st)
              ++ (if truthy_str (tails_public_uri (self_ st))
                  then [default ""%string (tails_public_uri (self_ st))]
                  else [])).
  { intros H. apply retrieve_tails_ends in H.
    destruct H as [Ht | uri Huri Hne _ | uri s Huri Hne _ _
                  | uri s r k Huri Hne _ _ _
                  | uri s r m1 k Huri Hne _ _ _ _
                  | uri s r m1 Huri Hne _ _ _ _ _
                  | uri s r m1 Huri Hne _ _ _ _ _];
      [ rewrite Ht; now rewrite app_nil_r | .. ];
      rewrite Huri, (truthy_str_Some uri Hne); reflexivity. }
  split; [exact Hretrieve|].
  intros H. apply get_or_fetch_cases in H as [-> | H]; [now left|].
  apply Hretrieve in H.
  destruct (truthy_str (tails_public_uri (self_ st))) eqn:Ht.
  - apply truthy_str_inv in Ht as (uri & Huri & Hne).
    right. exists uri. rewrite Huri in H. auto.
  - left. now rewrite app_nil_r in H.
Qed.

Lemma transport_asked_once_witness :
  fetched (world (snd (retrieve_tails "/tmp" Sample.cache Sample.fooled)))
  = [Sample.abc_uri]
  /\ fetched (world (snd (retrieve_tails "/tmp" Sample.cache Sample.offline)))
     = [].
Proof.
  split.
  - apply (proj1 (transport_asked_once "/tmp" Sample.cache Sample.fooled
                    (snd (retrieve_tails "/tmp" Sample.cache Sample.fooled))
                    (Raise HashMismatch))).
    apply outcome_of_result. vm_compute. reflexivity.
  - apply (proj1 (transport_asked_once "/tmp" Sample.cache Sample.offline
                    (snd (retrieve_tails "/tmp" Sample.cache Sample.offline))
                    (Raise MissingPublicLocation))).
    apply outcome_of_result. vm_compute. reflexivity.
Defined.



(** A transport that cannot open the URI makes [retrieve_tails] raise
    [FetchFailure]; disk and registry are as before, and the failure is
    not remembered: the next call asks the transport again. *)
Theorem retrieve_tails_fetch_failure (tmp : string)
  (context : InjectionContext) (st : State) (uri : string) :
  tails_public_uri (self_ st) = Some uri ->
  uri <> ""%string ->
  remote (world st) !! uri = None ->
  exists st1 st2,
    retrieve_tails tmp context st = (Raise FetchFailure, st1)
    /\ self_ st1 = self_ st
    /\ fs (world st1) = fs (world st)
    /\ fetched (world st1) = fetched (world st) ++ [uri]
    /\ retrieve_tails tmp context st1 = (Raise FetchFailure, st2)
    /\ fetched (world st2) = fetched (world st) ++ [uri; uri].
Proof.
  intros Huri Hne Hremote.
  exists (asked uri (fs (world st)) st),
         (asked uri (fs (world st)) (asked uri (fs (world st)) st)).
  split; [apply retrieve_tails_ends; now apply ends_no_stream|].
  repeat split.
  - apply retrieve_tails_ends.
    apply (ends_no_stream tmp context (asked uri (fs (world st)) st) uri);
      auto.
  - cbn [asked fetched world]. now rewrite <- app_assoc.
Qed.

Lemma retrieve_tails_fetch_failure_witness :
  exists st1 st2,
    retrieve_tails "/tmp" Sample.cache
      (mkState Sample.public (mkWorld Sample.empty_disk ∅ []))
    = (Raise FetchFailure, st1)
    /\ self_ st1 = Sample.public
    /\ fs (world st1) = Sample.empty_disk
    /\ fetched (world st1) = [] ++ [Sample.abc_uri]
    /\ retrieve_tails "/tmp" Sample.cache st1 = (Raise FetchFailure, st2)
    /\ fetched (world st2) = [] ++ [Sample.abc_uri; Sample.abc_uri].
Proof.
  apply (retrieve_tails_fetch_failure "/tmp" Sample.cache
           (mkState Sample.public (mkWorld Sample.empty_disk ∅ []))
           Sample.abc_uri);
    [reflexivity | discriminate | reflexivity].
Defined.

(** With neither a usable [tails_local_path] nor a [tails_hash] the
    path cannot be made.  [get_or_fetch] then raises [TypeError] at
    once, and [retrieve_tails] only after it has asked the transport. *)
Theorem no_path_no_hash (tmp : string) (context : InjectionContext)
  (st : State) (uri : string) (tails_stream : stream) :
  truthy_path (tails_local_path (self_ st)) = false ->
  tails_hash (self_ st) = None ->
  tails_public_uri (self_ st) = Some uri ->
  uri <> ""%string ->
  remote (world st) !! uri = Some tails_stream ->
  get_or_fetch_local_tails_path tmp context st = (Raise TypeError, st)
  /\ retrieve_tails tmp context st
     = (Raise TypeError, asked uri (fs (world st)) st).
Proof.
  intros Hpath Hhash Huri Hne Hremote.
  assert (Hrecv : get_receiving_tails_local_path tmp (self_ st) context
                  = Raise TypeError).
  { unfold get_receiving_tails_local_path. now rewrite Hpath, Hhash. }
  split.
  - rewrite get_or_fetch_unfold. now rewrite Hrecv.
  - apply retrieve_tails_ends.
    now apply (ends_no_path tmp context st uri tails_stream).
Qed.

Lemma no_path_no_hash_witness :
  get_or_fetch_local_tails_path "/tmp" Sample.cache
    (mkState (set_tails_public_uri (Some Sample.abc_uri) blank)
       (mkWorld Sample.empty_disk Sample.honest []))
  = (Raise TypeError,
     mkState (set_tails_public_uri (Some Sample.abc_uri) blank)
       (mkWorld Sample.empty_disk Sample.honest []))
  /\ retrieve_tails "/tmp" Sample.cache
       (mkState (set_tails_public_uri (Some Sample.abc_uri) blank)
          (mkWorld Sample.empty_disk Sample.honest []))
     = (Raise TypeError,
        asked Sample.abc_uri Sample.empty_disk
          (mkState (set_tails_public_uri (Some Sample.abc_uri) blank)
             (mkWorld Sample.empty_disk Sample.honest []))).
Proof.
  apply (no_path_no_hash "/tmp" Sample.cache
           (mkState (set_tails_public_uri (Some Sample.abc_uri) blank)
              (mkWorld Sample.empty_disk Sample.honest []))
           Sample.abc_uri Sample.abc);
    [reflexivity | reflexivity | reflexivity | discriminate
    | vm_compute; reflexivity].
Defined.

(** Whenever [retrieve_tails] returns, what it returns is the resolved
    path as a [Path]; a file is there whose digest is [tails_hash]; only
    [tails_local_path] has changed in the registry, to the returned
    path; and from then on the registry resolves to that path whatever
    the settings and the temporary directory. *)
Theorem retrieve_tails_returns (tmp : string) (context : InjectionContext)
  (st st' : State) (p : pathlike) :
  retrieve_tails tmp context st = (Ok p, st') ->
  exists receiving data,
    get_receiving_tails_local_path tmp (self_ st) context = Ok receiving
    /\ p = PosixPath (Path receiving)
    /\ fs (world st') !! Path p = Some (File data)
    /\ tails_hash (self_ st') = Some (tails_digest data)
    /\ self_ st' = set_tails_local_path (Some p) (self_ st)
    /\ forall tmp' context',
         get_receiving_tails_local_path tmp' (self_ st') context' = Ok p.
Proof.
  intros H. apply retrieve_tails_ends in H.
  inversion H as [ | | | | |
                 | uri s r m1 Huri Hne Hremote Hrecv Hmk Hopen Hhash];
    subst.
  exists r, (content s). cbn [self_ world fs asked Path].
  repeat split; auto.
  apply lookup_insert_eq.
Qed.

Lemma retrieve_tails_returns_witness :
  exists receiving data,
    get_receiving_tails_local_path "/tmp" (self_ Sample.fresh) Sample.cache
    = Ok receiving
    /\ PosixPath Sample.cached_abc = PosixPath (Path receiving)
    /\ fs (world (snd (retrieve_tails "/tmp" Sample.cache Sample.fresh)))
         !! Path (PosixPath Sample.cached_abc)
       = Some (File data)
    /\ tails_hash
         (self_ (snd (retrieve_tails "/tmp" Sample.cache Sample.fresh)))
       = Some (tails_digest data)
    /\ self_ (snd (retrieve_tails "/tmp" Sample.cache Sample.fresh))
       = set_tails_local_path (Some (PosixPath Sample.cached_abc))
           (self_ Sample.fresh)
    /\ forall tmp' context',
         get_receiving_tails_local_path tmp'
           (self_ (snd (retrieve_tails "/tmp" Sample.cache Sample.fresh)))
           context'
         = Ok (PosixPath Sample.cached_abc).
Proof.
  apply (retrieve_tails_returns "/tmp" Sample.cache Sample.fresh).
  apply outcome_of_result. vm_compute. reflexivity.
Defined.

(* ===================================================================== *)
(** * More on retrieval: how calls compose *)
(* ===================================================================== *)

(** How the transport cuts the body in chunks does not matter: two
    states that differ only in the chunks, not in the bytes, of the
    stream behind the URI give the same result, the same disk and the
    same registry. *)
Theorem chunks_do_not_matter (tmp : string) (context : InjectionContext)
  (st1 st2 : State) (uri : string) (s1 s2 : stream) :
  self_ st1 = self_ st2 ->
  fs (world st1) = fs (world st2) ->
  tails_public_uri (self_ st1) = Some uri ->
  remote (world st1) !! uri = Some s1 ->
  remote (world st2) !! uri = Some s2 ->
  content s1 = content s2 ->
  fst (retrieve_tails tmp context st1) = fst (retrieve_tails tmp context st2)
  /\ self_ (snd (retrieve_tails tmp context st1))
     = self_ (snd (retrieve_tails tmp context st2))
  /\ fs (world (snd (retrieve_tails tmp context st1)))
     = fs (world (snd (retrieve_tails tmp context st2))).
Proof.
  intros Hself Hfs Huri Hr1 Hr2 Hcontent.
  rewrite !retrieve_tails_unfold. cbv zeta.
  rewrite <- Hself, <- Hfs, Huri. cbn [from_option Datatypes.id].
  rewrite Hr1, Hr2.
  destruct (truthy_str (Some uri)); cbn [negb];
    [|cbn [fst snd]; auto].
  destruct (get_receiving_tails_local_path tmp (self_ st1) context)
    as [receiving|e]; [|cbn [fst snd asked self_ world fs]; auto].
  destruct (if negb _ then _ else _) as [m1|e];
    [|cbn [fst snd asked self_ world fs]; auto].
  destruct (Fs.open_wb (Path receiving) m1) as [m2|e] eqn:Hopen;
    [|cbn [fst snd asked self_ world fs]; auto].
  apply open_wb_inv in Hopen as [-> _].
  rewrite !download_opened, Hcontent. cbn [fst snd].
  destruct (bool_decide _); cbn [fst snd asked self_ world fs];
    rewrite <- ?Hself; auto.
Qed.

Lemma chunks_do_not_matter_witness :
  fst (retrieve_tails "/tmp" Sample.cache Sample.fresh)
  = fst (retrieve_tails "/tmp" Sample.cache
           (mkState Sample.public
              (mkWorld Sample.empty_disk
                 (<[Sample.abc_uri := [bytes_of_string "abc"]]> ∅) [])))
  /\ self_ (snd (retrieve_tails "/tmp" Sample.cache Sample.fresh))
     = self_ (snd (retrieve_tails "/tmp" Sample.cache
                     (mkState Sample.public
                        (mkWorld Sample.empty_disk
                           (<[Sample.abc_uri := [bytes_of_string "abc"]]> ∅)
                           []))))
  /\ fs (world (snd (retrieve_tails "/tmp" Sample.cache Sample.fresh)))
     = fs (world (snd (retrieve_tails "/tmp" Sample.cache
                         (mkState Sample.public
                            (mkWorld Sample.empty_disk
                               (<[Sample.abc_uri :=
                                    [bytes_of_string "abc"]]> ∅)
                               []))))).
Proof.
  apply (chunks_do_not_matter "/tmp" Sample.cache Sample.fresh
           (mkState Sample.public
              (mkWorld Sample.empty_disk
                 (<[Sample.abc_uri := [bytes_of_string "abc"]]> ∅) []))
           Sample.abc_uri Sample.abc [bytes_of_string "abc"]);
    [ reflexivity | reflexivity | reflexivity | vm_compute; reflexivity
    | vm_compute; reflexivity | reflexivity ].
Defined.

(** The directory of an opened file is a directory, and is not the file. *)
Lemma open_wb_parent (p : PurePath.t) (m m2 : gmap PurePath.t node) :
  Fs.open_wb p m = Ok m2 -> Fs.stat m (PurePath.parent p) = Some Dir.
Proof.
  unfold Fs.open_wb.
  destruct (Fs.stat m p) as [[data|]|]; try discriminate;
    destruct (Fs.stat m (PurePath.parent p)) as [[data'|]|];
    try discriminate; reflexivity.
Qed.

Lemma parent_neq (p : PurePath.t) :
  PurePath.parts p <> [] -> PurePath.parent p <> p.
Proof.
  intros Hp Heq. pose proof (FsFacts.parent_parts_length p Hp) as Hlen.
  rewrite Heq in Hlen. lia.
Qed.

(** [retrieve_tails] does not look at what is on disk: called again after
    it has returned, it asks the transport again, writes the same file
    again and returns the same path; disk and registry end as they
    were. *)
Theorem retrieve_tails_again (tmp : string) (context : InjectionContext)
  (st st1 : State) (p : pathlike) :
  retrieve_tails tmp context st = (Ok p, st1) ->
  exists st2 uri,
    retrieve_tails tmp context st1 = (Ok p, st2)
    /\ self_ st2 = self_ st1
    /\ fs (world st2) = fs (world st1)
    /\ tails_public_uri (self_ st) = Some uri
    /\ fetched (world st2) = fetched (world st) ++ [uri; uri].
Proof.
  intros H. apply retrieve_tails_ends in H.
  inversion H as [ | | | | |
                 | uri s r m1 Huri Hne Hremote Hrecv Hmk Hopen Hhash];
    subst.
  destruct (open_wb_inv _ _ _ Hopen) as [_ Hparts].
  pose proof (open_wb_parent _ _ _ Hopen) as Hparent.
  set (dest := Path r) in *.
  set (m3 := <[dest := File (content s)]> m1).
  set (st1 := mkState (set_tails_local_path (Some (PosixPath dest)) (self_ st))
                (world (asked uri m3 st))).
  assert (Hparent3 : Fs.stat m3 (PurePath.parent dest) = Some Dir).
  { unfold Fs.stat in *. destruct (PurePath.parts (PurePath.parent dest));
      [reflexivity|].
    unfold m3. now rewrite lookup_insert_ne by (symmetry; now apply parent_neq). }
  assert (Hopen3 : Fs.open_wb dest m3 = Ok (<[dest := File []]> m3)).
  { unfold Fs.open_wb. rewrite Hparent3.
    rewrite (FsFacts.stat_lookup m3 dest Hparts).
    unfold m3. now rewrite lookup_insert_eq. }
  assert (Hrun : retrieve_ends tmp context st1
                   (Ok (PosixPath (Path (PosixPath dest))))
                   (mkState
                      (set_tails_local_path
                         (Some (PosixPath (Path (PosixPath dest))))
                         (self_ st1))
                      (world
                         (asked uri
                            (<[Path (PosixPath dest) := File (content s)]> m3)
                            st1)))).
  { apply (ends_well tmp context st1 uri s (PosixPath dest) m3); auto.
    unfold make_parent, Fs.exists_. cbn [Path st1 world fs asked].
    now rewrite Hparent3. }
  apply retrieve_tails_ends in Hrun.
  eexists _, uri. split; [exact Hrun|].
  cbn [Path self_ world fs fetched asked st1].
  repeat split; auto.
  - unfold m3. now rewrite insert_insert_eq.
  - now rewrite <- app_assoc.
Qed.

Lemma retrieve_tails_again_witness :
  exists st2 uri,
    retrieve_tails "/tmp" Sample.cache
      (snd (retrieve_tails "/tmp" Sample.cache Sample.fresh))
    = (Ok (PosixPath Sample.cached_abc), st2)
    /\ self_ st2 = self_ (snd (retrieve_tails "/tmp" Sample.cache Sample.fresh))
    /\ fs (world st2)
       = fs (world (snd (retrieve_tails "/tmp" Sample.cache Sample.fresh)))
    /\ tails_public_uri (self_ Sample.fresh) = Some uri
    /\ fetched (world st2) = fetched (world Sample.fresh) ++ [uri; uri].
Proof.
  apply (retrieve_tails_again "/tmp" Sample.cache Sample.fresh).
  apply outcome_of_result. vm_compute. reflexivity.
Defined.



(** A registry built from a local definition never goes to the network:
    [retrieve_tails] raises [MissingPublicLocation], and [get_or_fetch]
    either returns the path of a file that is there or raises
    [MissingPublicLocation]; neither changes anything. *)
Theorem local_definition_stays_local (d : RevocRegDef)
  (reg : RevocationRegistry) (tmp : string) (context : InjectionContext)
  (w : World) :
  from_definition d false = Ok reg ->
  retrieve_tails tmp context (mkState reg w)
  = (Raise MissingPublicLocation, mkState reg w)
  /\ exists res,
       get_or_fetch_local_tails_path tmp context (mkState reg w)
       = (res, mkState reg w)
       /\ (res = Raise MissingPublicLocation
           \/ exists receiving,
                res = Ok receiving
                /\ Fs.is_file (fs w) (Path receiving) = true).
Proof.
  intros H.
  destruct (from_definition_complete d false (from_definition_inv d false reg H))
    as (i & c & t & g & loc & n & h & -> & Hreg).
  rewrite Hreg in H. injection H as <-.
  match goal with
  | |- context [mkState ?r w] =>
      assert (Hretrieve : retrieve_tails tmp context (mkState r w)
                          = (Raise MissingPublicLocation, mkState r w))
        by now apply retrieve_tails_missing_uri_step
  end.
  split; [exact Hretrieve|].
  rewrite get_or_fetch_unfold. cbn [self_ world].
  match goal with
  | |- context [get_receiving_tails_local_path tmp ?r context] =>
      destruct (get_receiving_tails_local_path tmp r context)
        as [receiving|e] eqn:Hrecv
  end.
  - destruct (Fs.is_file (fs w) (Path receiving)) eqn:Hfile.
    + eexists. split; [reflexivity|]. right. now exists receiving.
    + eexists. split; [exact Hretrieve | now left].
  - apply get_receiving_raises_inv in Hrecv as (_ & _ & Hhash).
    discriminate.
Qed.

Lemma local_definition_stays_local_witness :
  retrieve_tails "/tmp" Sample.cache
    (mkState Sample.local (world Sample.offline))
  = (Raise MissingPublicLocation,
     mkState Sample.local (world Sample.offline))
  /\ exists res,
       get_or_fetch_local_tails_path "/tmp" Sample.cache
         (mkState Sample.local (world Sample.offline))
       = (res, mkState Sample.local (world Sample.offline))
       /\ (res = Raise MissingPublicLocation
           \/ exists receiving,
                res = Ok receiving
                /\ Fs.is_file (fs (world Sample.offline)) (Path receiving)
                   = true).
Proof.
  apply (local_definition_stays_local
           (Sample.definition "/var/tails/abc") Sample.local "/tmp"
           Sample.cache (world Sample.offline)).
  reflexivity.
Defined.

(* ===================================================================== *)
(** * More on paths: where the file goes *)
(* ===================================================================== *)

Module PathFacts.
Import PurePath.

Lemma lstrip_sep_cons (c : ascii) (s : string) :
  lstrip_sep (String c s)
  = if Ascii.eqb c "/" then lstrip_sep s else String c s.
Proof. destruct c as [[] [] [] [] [] [] [] []]; reflexivity. Qed.

Lemma splitroot_cons (c : ascii) (s : string) :
  splitroot (String c s)
  = if Ascii.eqb c "/" then
      if Nat.eqb (String.length (String c s)
                  - String.length (lstrip_sep (String c s))) 2
      then ("//"%string, lstrip_sep (String c s))
      else ("/"%string, lstrip_sep (String c s))
    else (""%string, String c s).
Proof. destruct c as [[] [] [] [] [] [] [] []]; reflexivity. Qed.

(** A plain name starts with a character that is not a slash. *)
Lemma plain_name_inv (h : string) :
  plain_name h = true ->
  exists a h', h = String a h' /\ Ascii.eqb a "/" = false
               /\ Re.lacks "/" h = true /\ keep_component h = true.
Proof.
  unfold plain_name. intros H. apply andb_prop in H as [Hkeep Hlacks].
  destruct h as [|a h']; [discriminate|].
  exists a, h'. repeat split; auto.
  cbn [Re.lacks] in Hlacks. apply andb_prop in Hlacks as [Ha _].
  now destruct (Ascii.eqb a "/").
Qed.

Lemma lstrip_sep_plain (x : string) :
  x = ""%string \/ (exists a x', x = String a x' /\ Ascii.eqb a "/" = false) ->
  lstrip_sep x = x.
Proof.
  intros [-> | (a & x' & -> & Ha)]; [reflexivity|].
  now rewrite lstrip_sep_cons, Ha.
Qed.

(** [split] and [join] on names without a slash. *)
Lemma split_go_plain (c : string) : forall rest cur,
  Re.lacks "/" c = true ->
  split_go "/" (c +:+ rest) cur = split_go "/" rest (cur +:+ c).
Proof.
  induction c as [|a c IH]; intros rest cur Hc.
  - now rewrite append_nil_l, append_nil_r.
  - cbn [Re.lacks] in Hc. apply andb_prop in Hc as [Ha Hc].
    rewrite append_cons. cbn [split_go].
    destruct (Ascii.eqb a "/"); [discriminate|].
    rewrite (IH _ _ Hc). now rewrite append_snoc.
Qed.

Lemma split_go_concat (cs : list string) : forall c cur,
  Forall (fun x => Re.lacks "/" x = true) (c :: cs) ->
  split_go "/" (String.concat "/" (c :: cs)) cur = (cur +:+ c) :: cs.
Proof.
  induction cs as [|c' cs IH]; intros c cur Hall.
  - cbn [String.concat]. rewrite <- (append_nil_r c) at 1.
    rewrite split_go_plain by now inversion Hall. reflexivity.
  - change (String.concat "/" (c :: c' :: cs))
      with (c +:+ "/" +:+ String.concat "/" (c' :: cs)).
    inversion Hall as [|? ? Hc Hrest]; subst.
    rewrite (split_go_plain c _ _ Hc). rewrite append_cons, append_nil_l.
    cbn [split_go]. rewrite (IH c' ""%string Hrest). reflexivity.
Qed.

Lemma split_go_lacks (s : string) : forall cur,
  Re.lacks "/" cur = true ->
  Forall (fun x => Re.lacks "/" x = true) (split_go "/" s cur).
Proof.
  induction s as [|a s IH]; intros cur Hcur; cbn [split_go].
  - now constructor.
  - destruct (Ascii.eqb a "/") eqn:Ha.
    + constructor; [exact Hcur | now apply IH].
    + apply IH. clear IH. induction cur as [|b cur IHcur].
      * rewrite append_nil_l. cbn [Re.lacks]. now rewrite Ha.
      * cbn [Re.lacks] in *. rewrite append_cons. cbn [Re.lacks].
        apply andb_prop in Hcur as [Hb Hcur]. rewrite Hb. now apply IHcur.
Qed.

Lemma filter_keeps_all {A} (f : A -> bool) (l : list A) :
  Forall (fun x => f x = true) l -> List.filter f l = l.
Proof.
  induction 1 as [|x l Hx _ IH]; [reflexivity|].
  cbn. now rewrite Hx, IH.
Qed.

Lemma normal_parts_keep (ps : list string) :
  Forall (fun c => plain_name c = true) ps ->
  Forall (fun c => keep_component c = true) ps
  /\ Forall (fun c => Re.lacks "/" c = true) ps.
Proof.
  induction 1 as [|c ps Hc _ [IH1 IH2]]; [split; constructor|].
  unfold plain_name in Hc. apply andb_prop in Hc as [Hk Hl].
  split; now constructor.
Qed.

(** What [parse] builds is normal. *)
Lemma parse_normal (s : string) : normal (parse s).
Proof.
  unfold parse, normal.
  destruct (splitroot s) as [r rel] eqn:Hsplit. cbn [root parts]. split.
  - destruct s as [|c s]; [injection Hsplit as <- _; now left|].
    rewrite splitroot_cons in Hsplit.
    destruct (Ascii.eqb c "/"); [destruct (Nat.eqb _ 2)|];
      injection Hsplit as <- _; cbn; auto.
  - apply List.Forall_forall. intros c Hin.
    apply filter_In in Hin as [Hin Hkeep].
    unfold plain_name. rewrite Hkeep. cbn [andb].
    pose proof (split_go_lacks rel ""%string eq_refl) as Hall.
    rewrite List.Forall_forall in Hall. now apply Hall.
Qed.

(** The components of a normal path, joined and split again. *)
Lemma split_concat (ps : list string) :
  Forall (fun c => plain_name c = true) ps ->
  List.filter keep_component (split "/" (String.concat "/" ps)) = ps.
Proof.
  intros Hps. destruct (normal_parts_keep ps Hps) as [Hkeep Hlacks].
  destruct ps as [|c cs]; [reflexivity|].
  unfold split. rewrite (split_go_concat cs c ""%string Hlacks).
  rewrite append_nil_l. now apply filter_keeps_all.
Qed.

Lemma concat_head (ps : list string) :
  Forall (fun c => plain_name c = true) ps ->
  String.concat "/" ps = ""%string
  \/ exists a x', String.concat "/" ps = String a x'
                  /\ Ascii.eqb a "/" = false.
Proof.
  intros Hps. destruct ps as [|c cs]; [now left|]. right.
  inversion Hps as [|? ? Hc _]; subst.
  destruct (plain_name_inv c Hc) as (a & c' & -> & Ha & _).
  destruct cs as [|c2 cs].
  - now exists a, c'.
  - change (String.concat "/" (String a c' :: c2 :: cs))
      with (String a c' +:+ "/" +:+ String.concat "/" (c2 :: cs)).
    rewrite append_cons. eauto.
Qed.

(** [Path(str(p))] is [p]: the text of a normal path parses back to
    the path. *)
Lemma parse_str (p : PurePath.t) : normal p -> parse (str p) = p.
Proof.
  destruct p as [r ps]. intros [Hroot Hps]. cbn [root parts] in *.
  pose proof (split_concat ps Hps) as Hsplit.
  pose proof (concat_head ps Hps) as Hhead.
  pose proof (lstrip_sep_plain _ Hhead) as Hstrip.
  destruct Hroot as [<- | [<- | [<- | []]]].
  - destruct ps as [|c cs]; [reflexivity|].
    unfold str. cbn [root parts]. rewrite append_nil_l.
    destruct Hhead as [Hnil | (a & x' & Hcons & Ha)].
    + exfalso. inversion Hps as [|? ? Hc _]; subst.
      destruct (plain_name_inv c Hc) as (a & c' & -> & _).
      destruct cs; discriminate.
    + unfold parse. rewrite Hcons, splitroot_cons, Ha, <- Hcons.
      now rewrite Hsplit.
  - unfold str. cbn [root parts].
    rewrite append_cons, append_nil_l.
    unfold parse. rewrite splitroot_cons. cbn [Ascii.eqb Bool.eqb].
    rewrite lstrip_sep_cons. cbn [Ascii.eqb Bool.eqb]. rewrite Hstrip.
    cbn [String.length].
    replace (S (String.length (String.concat "/" ps))
             - String.length (String.concat "/" ps))%nat with 1%nat by lia.
    cbn [Nat.eqb]. now rewrite Hsplit.
  - unfold str. cbn [root parts].
    rewrite !append_cons, append_nil_l.
    unfold parse. rewrite splitroot_cons. cbn [Ascii.eqb Bool.eqb].
    rewrite !lstrip_sep_cons. cbn [Ascii.eqb Bool.eqb]. rewrite Hstrip.
    cbn [String.length].
    replace (S (S (String.length (String.concat "/" ps)))
             - String.length (String.concat "/" ps))%nat with 2%nat by lia.
    cbn [Nat.eqb]. now rewrite Hsplit.
Qed.

(** Joining keeps paths normal. *)
Lemma join_normal (p q : PurePath.t) :
  normal p -> normal q -> normal (join p q).
Proof.
  intros [Hrp Hpp] [Hrq Hpq]. unfold join.
  destruct (String.eqb (root q) ""); [|now split].
  split; [exact Hrp|]. cbn [parts]. apply Forall_app. now split.
Qed.

Lemma of_segments_normal (segments : list string) :
  normal (of_segments segments).
Proof.
  unfold of_segments.
  assert (Hstart : normal (mk "" [])) by (split; [now left | constructor]).
  revert Hstart. generalize (mk "" []).
  induction segments as [|s segments IH]; intros p Hp; [exact Hp|].
  cbn [fold_left]. apply IH. apply join_normal; [exact Hp|].
  apply parse_normal.
Qed.

(** A plain name is a path of one component. *)
Lemma parse_plain (h : string) :
  plain_name h = true -> parse h = mk "" [h].
Proof.
  intros Hh.
  destruct (plain_name_inv h Hh) as (a & h' & -> & Ha & Hlacks & Hkeep).
  unfold parse. rewrite splitroot_cons, Ha. unfold split.
  rewrite <- (append_nil_r (String a h')) at 1.
  rewrite (split_go_plain _ _ _ Hlacks). cbn [split_go].
  rewrite append_nil_l. cbn [List.filter]. now rewrite Hkeep.
Qed.

End PathFacts.

Lemma configured_dir_normal (tmp : string) (context : InjectionContext) :
  normal (configured_dir tmp context).
Proof.
  unfold configured_dir, settings_get.
  destruct (settings context !! _); cbn [Path].
  - apply PathFacts.parse_normal.
  - apply PathFacts.of_segments_normal.
Qed.

Lemma get_receiving_joins (tmp : string) (self : RevocationRegistry)
  (context : InjectionContext) (h : string) :
  truthy_path (tails_local_path self) = false ->
  tails_hash self = Some h ->
  get_receiving_tails_local_path tmp self context
  = Ok (Str (PurePath.str
               (PurePath.joinpath (configured_dir tmp context) h))).
Proof.
  intros Hpath Hhash. unfold get_receiving_tails_local_path, configured_dir.
  now rewrite Hpath, Hhash.
Qed.

(** The cache is addressed by content: when [tails_hash] is a plain name
    (not empty, not a dot, no slash) and no [tails_local_path] is set,
    the resolved path is the file of that name in the configured
    directory. *)
Theorem tails_file_in_directory (tmp : string) (self : RevocationRegistry)
  (context : InjectionContext) (h : string) :
  truthy_path (tails_local_path self) = false ->
  tails_hash self = Some h ->
  plain_name h = true ->
  exists receiving,
    get_receiving_tails_local_path tmp self context = Ok receiving
    /\ PurePath.parent (Path receiving) = configured_dir tmp context
    /\ PurePath.parts (Path receiving)
       = PurePath.parts (configured_dir tmp context) ++ [h].
Proof.
  intros Hpath Hhash Hplain.
  eexists. split; [apply get_receiving_joins; eassumption|].
  pose proof (configured_dir_normal tmp context) as [Hroot Hparts].
  set (dir := configured_dir tmp context) in *.
  cbn [Path]. unfold PurePath.joinpath.
  rewrite (PathFacts.parse_plain h Hplain). unfold PurePath.join.
  cbn [PurePath.root PurePath.parts String.eqb].
  rewrite PathFacts.parse_str.
  - unfold PurePath.parent. cbn [PurePath.root PurePath.parts].
    rewrite removelast_last. split; [now destruct dir | reflexivity].
  - split; [exact Hroot|]. cbn [PurePath.parts].
    apply Forall_app. split; [exact Hparts | now constructor].
Qed.

Lemma tails_file_in_directory_witness :
  exists receiving,
    get_receiving_tails_local_path "/tmp" Sample.public Sample.cache
    = Ok receiving
    /\ PurePath.parent (Path receiving) = configured_dir "/tmp" Sample.cache
    /\ PurePath.parts (Path receiving)
       = PurePath.parts (configured_dir "/tmp" Sample.cache)
         ++ [Sample.abc_hash].
Proof.
  apply (tails_file_in_directory "/tmp" Sample.public Sample.cache
           Sample.abc_hash); reflexivity.
Defined.

(** [tails_hash] is not checked to be a name.  One that starts with a
    slash is taken as the whole path, whatever directory is configured;
    an empty one, or a single dot, resolves to the configured directory
    itself. *)
Theorem tails_hash_not_a_name (tmp : string) (self : RevocationRegistry)
  (context : InjectionContext) (h : string) :
  truthy_path (tails_local_path self) = false ->
  tails_hash self = Some h ->
  exists receiving,
    get_receiving_tails_local_path tmp self context = Ok receiving
    /\ ((exists h', h = String "/" h') ->
        Path receiving = PurePath.parse h)
    /\ (h = ""%string \/ h = "."%string ->
        Path receiving = configured_dir tmp context).
Proof.
  intros Hpath Hhash.
  eexists. split; [apply get_receiving_joins; eassumption|].
  cbn [Path]. unfold PurePath.joinpath, PurePath.join. split.
  - intros [h' ->].
    assert (Hroot : String.eqb (PurePath.root (PurePath.parse (String "/" h')))
                      "" = false).
    { unfold PurePath.parse. rewrite PathFacts.splitroot_cons.
      cbn [Ascii.eqb Bool.eqb]. now destruct (Nat.eqb _ 2). }
    rewrite Hroot. apply PathFacts.parse_str, PathFacts.parse_normal.
  - assert (Hempty : PurePath.parse h = PurePath.mk "" [] ->
              PurePath.parse
                (PurePath.str
                   (if String.eqb (PurePath.root (PurePath.parse h)) ""
                    then PurePath.mk
                           (PurePath.root (configured_dir tmp context))
                           (PurePath.parts (configured_dir tmp context)
                            ++ PurePath.parts (PurePath.parse h))
                    else PurePath.parse h))
              = configured_dir tmp context).
    { intros ->. cbn [PurePath.root PurePath.parts String.eqb].
      rewrite app_nil_r.
      replace (PurePath.mk (PurePath.root (configured_dir tmp context))
                 (PurePath.parts (configured_dir tmp context)))
        with (configured_dir tmp context)
        by now destruct (configured_dir tmp context).
      apply PathFacts.parse_str, configured_dir_normal. }
    intros [-> | ->]; now apply Hempty.
Qed.

Lemma tails_hash_not_a_name_witness :
  exists receiving,
    get_receiving_tails_local_path "/tmp"
      (init None None None None None None None (Some Sample.abc_uri)
         (Some "/etc/passwd"%string) None)
      Sample.cache = Ok receiving
    /\ ((exists h', "/etc/passwd"%string = String "/" h') ->
        Path receiving = PurePath.parse "/etc/passwd")
    /\ ("/etc/passwd"%string = ""%string \/ "/etc/passwd"%string = "."%string ->
        Path receiving = configured_dir "/tmp" Sample.cache).
Proof.
  apply (tails_hash_not_a_name "/tmp"
           (init None None None None None None None (Some Sample.abc_uri)
              (Some "/etc/passwd"%string) None)
           Sample.cache "/etc/passwd"); reflexivity.
Defined.

(* ===================================================================== *)
(** * Which marker the issuer is read at *)
(* ===================================================================== *)

Module MarkerFacts.
Import Re.

Lemma length_append (s t : string) :
  String.length (s +:+ t) = (String.length s + String.length t)%nat.
Proof.
  induction s as [|a s IH]; [now rewrite append_nil_l|].
  rewrite append_cons. cbn [String.length]. now rewrite IH.
Qed.

Lemma lacks_append (c : ascii) (s t : string) :
  lacks c (s +:+ t) = lacks c s && lacks c t.
Proof.
  induction s as [|a s IH]; [now rewrite append_nil_l|].
  rewrite append_cons. cbn [lacks]. now rewrite IH, andb_assoc.
Qed.

(** Of two prefixes of one string the shorter is a prefix of the
    longer. *)
Lemma append_prefix (b : string) : forall a x y,
  a +:+ x = b +:+ y ->
  (String.length b <= String.length a)%nat ->
  exists z, a = b +:+ z.
Proof.
  induction b as [|c b IH]; intros a x y H Hlen.
  - exists a. now rewrite append_nil_l.
  - destruct a as [|c' a]; [cbn in Hlen; lia|].
    rewrite !append_cons in H. injection H as -> H.
    cbn [String.length] in Hlen.
    destruct (IH a x y H ltac:(lia)) as [z ->].
    exists z. now rewrite append_cons.
Qed.

(** What is left of a string that ends with a colon ends with it. *)
Lemma ends_with_colon (p1 : string) : forall p2 pre',
  p1 +:+ p2 = pre' +:+ ":" ->
  p2 <> ""%string ->
  exists p2', p2 = p2' +:+ ":".
Proof.
  induction p1 as [|c p1 IH]; intros p2 pre' H Hp2.
  - rewrite append_nil_l in H. now exists pre'.
  - rewrite append_cons in H. destruct pre' as [|c' pre'].
    + rewrite append_nil_l in H. injection H as _ H.
      destruct p1; [|discriminate].
      rewrite append_nil_l in H. contradiction.
    + rewrite append_cons in H. injection H as _ H. now apply (IH p2 pre').
Qed.

(** Started inside the part in front of the component that the first
    marker follows, the group and the marker do not match: the run of
    characters other than the colon ends at a colon no marker starts
    at. *)
Lemma earlier_fails (p1 p2 did rest : string) (pos : nat) :
  (exists pre', p1 +:+ p2 = pre' +:+ ":") ->
  p2 <> ""%string ->
  (forall a b,
     (p1 +:+ p2) +:+ did +:+ ":3:CL:" +:+ rest = a +:+ ":3:CL:" +:+ b ->
     (String.length ((p1 +:+ p2) +:+ did) <= String.length a)%nat) ->
  the_group pos (p2 +:+ did +:+ ":3:CL:" +:+ rest) (Reading "") = None.
Proof.
  intros [pre' Hpre] Hp2 Hfirst.
  destruct (the_group pos _ (Reading "")) as [g|] eqn:Hg; [|reflexivity].
  exfalso.
  apply ReFacts.the_group_inv in Hg as (d' & post' & Hs & Hd' & _).
  assert (Hlen : (String.length (p2 +:+ did) <= String.length d')%nat).
  { pose proof (Hfirst (p1 +:+ d') post') as H.
    rewrite !length_append in H. rewrite !length_append.
    enough (String.length p1 + String.length p2 + String.length did
            <= String.length p1 + String.length d')%nat by lia.
    apply H. rewrite !append_assoc. now rewrite Hs. }
  rewrite length_append in Hlen.
  destruct (append_prefix p2 d' (":3:CL:" +:+ post')
              (did +:+ ":3:CL:" +:+ rest)) as [z ->];
    [now symmetry | lia |].
  destruct (ends_with_colon p1 p2 pre' Hpre Hp2) as [p2' ->].
  rewrite !lacks_append in Hd'. cbn in Hd'.
  now rewrite andb_false_r in Hd'.
Qed.

(** The lazy star gives up at a newline, and goes on as long as what
    follows it does not match. *)
Lemma lazy_skips (p2 : string) : forall pos tail r,
  (forall q1 q2 pos',
     p2 = q1 +:+ q2 -> q2 <> ""%string ->
     the_group pos' (q2 +:+ tail) (Reading "") = None) ->
  (forall pos', the_group pos' tail (Reading "") = Some r) ->
  star_lazy Dot (fun pos s g => the_group pos s (Reading "")) pos
    (p2 +:+ tail) NotYet
  = if lacks newline p2 then Some r else None.
Proof.
  induction p2 as [|a p2 IH]; intros pos tail r Hfail Hlast.
  - rewrite append_nil_l. cbn [lacks].
    now apply ReFacts.star_lazy_first.
  - rewrite append_cons. cbn [star_lazy].
    rewrite <- append_cons.
    rewrite (Hfail ""%string (String a p2) pos);
      [|now rewrite append_nil_l | discriminate].
    cbn [accepts lacks feed].
    destruct (negb (Ascii.eqb a newline)); [|reflexivity].
    cbn [andb]. apply IH; [|exact Hlast].
    intros q1 q2 pos' -> Hq2.
    apply (Hfail (String a q1) q2 pos'); [|exact Hq2].
    now rewrite append_cons.
Qed.

(** The pattern on an id cut at its first marker: the component in
    front of the marker when no newline comes before the component,
    no match otherwise. *)
Lemma match_first_marker (pre did rest : string) :
  lacks ":" did = true ->
  (pre = ""%string \/ exists pre', pre = pre' +:+ ":") ->
  (forall a b,
     pre +:+ did +:+ ":3:CL:" +:+ rest = a +:+ ":3:CL:" +:+ b ->
     (String.length (pre +:+ did) <= String.length a)%nat) ->
  match_ issuer_did_pattern (pre +:+ did +:+ ":3:CL:" +:+ rest)
  = if lacks newline pre then Some (Closed did) else None.
Proof.
  intros Hdid Hpre Hfirst. rewrite ReFacts.pattern_unfold.
  apply lazy_skips.
  - intros q1 q2 pos' -> Hq2.
    destruct Hpre as [Hpre | Hpre].
    + destruct q1; [|discriminate].
      rewrite append_nil_l in Hpre. contradiction.
    + now apply (earlier_fails q1 q2 did rest pos').
  - intros pos'.
    now rewrite (ReFacts.the_group_takes did pos' "" rest Hdid).
Qed.

End MarkerFacts.

(** Of several markers [:3:CL:] in [credDefId] the first one counts.
    With the id cut at its first marker, [issuer_did] is the component
    right in front of that marker, and it is [None] when a newline comes
    before that component, later markers notwithstanding. *)
Theorem issuer_did_first_marker (d : RevocRegDef) (public_def : bool)
  (reg : RevocationRegistry) (pre did rest : string) :
  from_definition d public_def = Ok reg ->
  credDefId d = Some (pre +:+ did +:+ ":3:CL:" +:+ rest) ->
  Re.lacks ":" did = true ->
  (pre = ""%string \/ exists pre', pre = pre' +:+ ":") ->
  (forall a b,
     pre +:+ did +:+ ":3:CL:" +:+ rest = a +:+ ":3:CL:" +:+ b ->
     (String.length (pre +:+ did) <= String.length a)%nat) ->
  issuer_did reg = if Re.lacks Re.newline pre then Some did else None.
Proof.
  intros Hreg Hcdi Hdid Hpre Hfirst.
  destruct (from_definition_complete d public_def
              (from_definition_inv d public_def reg Hreg))
    as (i & c & t & g & loc & n & h & -> & Hbuilt).
  rewrite Hbuilt in Hreg. injection Hreg as <-.
  cbn [credDefId] in Hcdi. injection Hcdi as ->.
  cbn [issuer_did].
  rewrite (MarkerFacts.match_first_marker pre did rest Hdid Hpre Hfirst).
  now destruct (Re.lacks Re.newline pre).
Qed.

Lemma issuer_did_first_marker_witness :
  exists reg,
    from_definition
      (mkRevocRegDef (Some Sample.rev_reg_id)
         (Some ("did:" +:+ "b" +:+ ":3:CL:" +:+ "c:3:CL:d")%string)
         (Some "CL_ACCUM"%string) (Some "tag"%string)
         (Some (mkRevocRegDefValue (Some Sample.abc_uri) (Some 5%Z)
                  (Some Sample.abc_hash))))
      true = Ok reg
    /\ issuer_did reg = Some "b"%string.
Proof.
  eexists. split; [reflexivity|].
  apply (issuer_did_first_marker
           (mkRevocRegDef (Some Sample.rev_reg_id)
              (Some ("did:" +:+ "b" +:+ ":3:CL:" +:+ "c:3:CL:d")%string)
              (Some "CL_ACCUM"%string) (Some "tag"%string)
              (Some (mkRevocRegDefValue (Some Sample.abc_uri) (Some 5%Z)
                       (Some Sample.abc_hash))))
           true _ "did:" "b" "c:3:CL:d").
  - reflexivity.
  - reflexivity.
  - reflexivity.
  - right. now exists "did"%string.
  - intros a b H.
    do 5 (destruct a as [|? a]; [discriminate|];
          rewrite !append_cons in H; injection H as _ H).
    rewrite !append_cons, append_nil_l. cbn [String.length]. lia.
Defined.
